(** * Passing file descriptors over a Unix domain socket: package [fd]

    A shallow embedding of [fd.go] (functions [Get] and [Put]) together
    with the part of Go's [syscall] package they call
    ([CmsgLen], [CmsgSpace], [ParseSocketControlMessage],
    [UnixRights], [ParseUnixRights] of [sockcmsg_unix.go]), and the
    properties of the package proved over it.

    Conventions of the embedding
    - Go's [int] is a [Z] wrapped to the platform's width after every
      arithmetic operation ([wrapInt]); [int32] likewise ([int32]).
    - [[]byte] is [list byte]; multi-byte fields are read and written
      with coqutil's [le_combine]/[le_split], reversed on big-endian
      targets.
    - A Go function returning [(T, error)] returns a pair whose second
      component is [option Error] ([None] is [nil]).
    - A run-time panic is the [Panics] outcome; effects (system calls,
      allocations, handle creation) are recorded in an explicit world,
      threaded through a small state monad. The world also keeps which
      descriptors share an open file description and which descriptions
      are in non-blocking mode, since [Fd()] changes that mode. *)

From Stdlib Require Import String ZArith List Lia Bool.
From coqutil Require Import Byte Word.LittleEndianList.
Import ListNotations.
Local Open Scope Z_scope.

(* ================================================================== *)
(** ** Target platforms *)
(* ================================================================== *)

(** What [syscall] takes from [GOOS]/[GOARCH]. *)
Record Platform := {
  intBits    : Z;     (* width of [int] and [uintptr] *)
  lenBytes   : nat;   (* size of [Cmsghdr.Len]: uint64 or uint32 *)
  salign     : Z;     (* alignment unit of [cmsgAlignOf] *)
  bigEndian  : bool;
  SOL_SOCKET : Z;
  maxAlloc   : Z;     (* largest length [make] accepts *)
}.

Definition linux_amd64 : Platform :=
  {| intBits := 64; lenBytes := 8; salign := 8; bigEndian := false;
     SOL_SOCKET := 1; maxAlloc := 2 ^ 48 |}.

Definition linux_386 : Platform :=
  {| intBits := 32; lenBytes := 4; salign := 4; bigEndian := false;
     SOL_SOCKET := 1; maxAlloc := 2 ^ 32 - 1 |}.

Definition darwin_amd64 : Platform :=
  {| intBits := 64; lenBytes := 4; salign := 4; bigEndian := false;
     SOL_SOCKET := 65535; maxAlloc := 2 ^ 48 |}.

Definition linux_s390x : Platform :=
  {| intBits := 64; lenBytes := 8; salign := 8; bigEndian := true;
     SOL_SOCKET := 1; maxAlloc := 2 ^ 48 |}.

Definition SCM_RIGHTS : Z := 1.

(** The sanity conditions every Go target meets: [salign] is a power of
    two and the integer widths are the usual ones. *)
Definition platform_ok (P : Platform) : bool :=
  ((intBits P =? 32) || (intBits P =? 64))
  && ((lenBytes P =? 4)%nat || (lenBytes P =? 8)%nat)
  && (existsb (Z.eqb (salign P)) [1; 2; 4; 8; 16])
  && (0 <=? SOL_SOCKET P) && (SOL_SOCKET P <? 2 ^ 31)
  && (0 <=? maxAlloc P).

(* ================================================================== *)
(** ** Errors, panics, outcomes *)
(* ================================================================== *)

(** Go [error] values met by the package: [syscall.Errno] numbers and
    the [*net.OpError] that [UnixConn.File] wraps around one. *)
Inductive Error :=
| Errno (code : Z)
| OpError (op : string) (code : Z).

Definition EINVAL : Error := Errno 22.

Definition error := option Error.

Inductive PanicKind :=
| index_out_of_range
| slice_bounds_out_of_range
| makeslice_len_out_of_range.

Inductive Outcome (A : Type) :=
| Done (a : A)
| Panics (p : PanicKind).
Arguments Done {A} a.
Arguments Panics {A} p.

(* ================================================================== *)
(** ** Machine integers and byte order *)
(* ================================================================== *)

Definition wrapSigned (bits z : Z) : Z :=
  (z + 2 ^ (bits - 1)) mod 2 ^ bits - 2 ^ (bits - 1).

Definition wrapInt (P : Platform) (z : Z) : Z := wrapSigned (intBits P) z.

Definition int32 (z : Z) : Z := wrapSigned 32 z.

Definition len {A} (l : list A) : Z := Z.of_nat (length l).

(** Native-endian store and load of an [n]-byte field. *)
Definition store (P : Platform) (n : nat) (z : Z) : list byte :=
  if bigEndian P then rev (le_split n z) else le_split n z.

Definition load (P : Platform) (bs : list byte) : Z :=
  le_combine (if bigEndian P then rev bs else bs).

(** Four bytes read through an int32 pointer: a signed 32-bit integer. *)
Definition load_int32 (P : Platform) (bs : list byte) : Z := int32 (load P bs).

(** [b[lo:hi]]; outside [0 <= lo <= hi <= len(b)] the slice expression
    panics. *)
Definition slice {A} (b : list A) (lo hi : Z) : Outcome (list A) :=
  if (0 <=? lo) && (lo <=? hi) && (hi <=? len b)
  then Done (firstn (Z.to_nat (hi - lo)) (skipn (Z.to_nat lo) b))
  else Panics slice_bounds_out_of_range.

Definition zeros (n : Z) : list byte := repeat Byte.x00 (Z.to_nat n).

(* ================================================================== *)
(** ** Package syscall: control messages *)
(* ================================================================== *)

Module Syscall.
Section WithPlatform.
Variable P : Platform.

Record Cmsghdr := {
  Len   : Z;    (* unsigned, [lenBytes] wide *)
  Level : Z;    (* int32 *)
  Type_ : Z;    (* int32 *)
}.

Record SocketControlMessage := {
  Header : Cmsghdr;
  Data   : list byte;
}.

Definition SizeofCmsghdr : Z := Z.of_nat (lenBytes P) + 8.

(** [(salen + salign - 1) & ^(salign - 1)] *)
Definition cmsgAlignOf (salen : Z) : Z :=
  Z.land (wrapInt P (salen + salign P - 1)) (Z.lnot (salign P - 1)).

Definition CmsgLen (datalen : Z) : Z :=
  wrapInt P (cmsgAlignOf SizeofCmsghdr + datalen).

Definition CmsgSpace (datalen : Z) : Z :=
  wrapInt P (cmsgAlignOf SizeofCmsghdr + cmsgAlignOf datalen).

(** The [Cmsghdr] that a pointer to [b[0]] is cast to: the header
    fields as they lie at the front of [b]. *)
Definition readCmsghdr (b : list byte) : Cmsghdr :=
  {| Len   := load P (firstn (lenBytes P) b);
     Level := load_int32 P (firstn 4 (skipn (lenBytes P) b));
     Type_ := load_int32 P (firstn 4 (skipn (lenBytes P + 4) b)) |}.

(** [socketControlMessageHeaderAndData]: the header check, then the
    payload [b[cmsgAlignOf(SizeofCmsghdr):h.Len]]. *)
Definition socketControlMessageHeaderAndData (b : list byte)
  : Outcome (Cmsghdr * list byte * error) :=
  let h := readCmsghdr b in
  if (Len h <? SizeofCmsghdr) || (len b <? Len h)
  then Done (h, [], Some EINVAL)
  else match slice b (cmsgAlignOf SizeofCmsghdr) (Len h) with
       | Done dbuf => Done (h, dbuf, None)
       | Panics p => Panics p
       end.

(** The loop of [ParseSocketControlMessage]:
    [for i+CmsgLen(0) <= len(b) { ...; i += cmsgAlignOf(int(h.Len)) }].
    [fuel] bounds the number of iterations; [None] means it ran out
    (it never does with [S (length b)], see [parse_loop_total]). *)
Fixpoint parse_loop (fuel : nat) (b : list byte) (i : Z)
    (msgs : list SocketControlMessage)
  : option (Outcome (list SocketControlMessage * error)) :=
  if i + CmsgLen 0 <=? len b then
    match fuel with
    | O => None
    | S fuel' =>
        match socketControlMessageHeaderAndData (skipn (Z.to_nat i) b) with
        | Panics p => Some (Panics p)
        | Done (_, _, Some err) => Some (Done ([], Some err))
        | Done (h, dbuf, None) =>
            parse_loop fuel' b (wrapInt P (i + cmsgAlignOf (Len h)))
              (msgs ++ [{| Header := h; Data := dbuf |}])
        end
    end
  else Some (Done (msgs, None)).

Definition ParseSocketControlMessage (b : list byte)
  : Outcome (list SocketControlMessage * error) :=
  match parse_loop (S (length b)) b 0 [] with
  | Some r => r
  | None => Done ([], None)
  end.

(** [UnixRights]: a zeroed buffer of [CmsgSpace(datalen)] bytes with
    the header at its front and the descriptors, as int32, from
    offset [cmsgAlignOf(SizeofCmsghdr)] on. *)
Definition UnixRights (fds : list Z) : list byte :=
  let datalen := wrapInt P (len fds * 4) in
  store P (lenBytes P) (CmsgLen datalen)
  ++ store P 4 (SOL_SOCKET P)
  ++ store P 4 SCM_RIGHTS
  ++ zeros (cmsgAlignOf SizeofCmsghdr - SizeofCmsghdr)
  ++ flat_map (fun fd => store P 4 (int32 fd)) fds
  ++ zeros (CmsgSpace datalen - CmsgLen datalen).

(** The loop of [ParseUnixRights],
    [for i, j := 0, 0; i < len(m.Data); i += 4 { fds[j] = ...; j++ }]
    over [fds := make([]int, len(m.Data)>>2)]: every full group of four
    bytes fills the next slot; a trailing group of one to three bytes
    reaches [fds[j]] with [j = len(fds)], which panics. *)
Fixpoint rights_loop (data : list byte) : Outcome (list Z) :=
  match data with
  | [] => Done []
  | b0 :: b1 :: b2 :: b3 :: rest =>
      match rights_loop rest with
      | Done fds => Done (load_int32 P [b0; b1; b2; b3] :: fds)
      | Panics p => Panics p
      end
  | _ => Panics index_out_of_range
  end.

Definition ParseUnixRights (m : SocketControlMessage)
  : Outcome (list Z * error) :=
  if negb (Level (Header m) =? SOL_SOCKET P) then Done ([], Some EINVAL)
  else if negb (Type_ (Header m) =? SCM_RIGHTS) then Done ([], Some EINVAL)
  else match rights_loop (Data m) with
       | Done fds => Done (fds, None)
       | Panics p => Panics p
       end.

End WithPlatform.
End Syscall.

(* ================================================================== *)
(** ** The world outside the package *)
(* ================================================================== *)

(** [*net.UnixConn]: known by the descriptor of its socket. *)
Record UnixConn := { conn_sysfd : Z }.

(** [os.File]; a handle [*os.File] is an [option File], [None] for nil. *)
Record File := { file_fd : Z; file_name : string }.

(** The value [f.Fd()] returns: the descriptor, or [^uintptr(0)] (as an
    int, -1) on nil. What the call does besides is in [Fd_]. *)
Definition Fd (f : option File) : Z :=
  match f with Some f' => file_fd f' | None => -1 end.

Definition Name (f : option File) : string :=
  match f with Some f' => file_name f' | None => EmptyString end.

(** What the package does to its surroundings, in program order. *)
Inductive Event :=
| EvFile (via : UnixConn)                (* via.File(), a dup of the socket *)
| EvClose (fd : Z)                       (* Close of a file made by File() *)
| EvMakeBytes (n : Z)                    (* make([]byte, n) *)
| EvRecvmsg (socket : Z) (ooblen : Z)    (* syscall.Recvmsg *)
| EvSendmsg (socket : Z) (oob : list byte) (* syscall.Sendmsg *)
| EvNewFile (fd : Z) (name : string).    (* os.NewFile returning a handle *)

Inductive Result (A : Type) :=
| Ok (a : A)
| Err (e : Error).
Arguments Ok {A} a.
Arguments Err {A} e.

(** The operating system's answers, each a function of the events so
    far and of the call's arguments. *)
Record Kernel := {
  (* descriptor of the duplicate made by via.File() *)
  k_dup     : list Event -> UnixConn -> Result Z;
  (* control bytes the kernel writes at the front of the oob buffer *)
  k_recvmsg : list Event -> Z -> Z -> Result (list byte);
  k_sendmsg : list Event -> Z -> list byte -> error;
}.

(** The state of the process as far as the package touches it. A
    descriptor made by [dup] shares the open file description, and so
    the file status flags, of the descriptor it was made from. *)
Record World := {
  open_fds : list Z;       (* descriptors held open: sockets, duplicates *)
  log  : list Event;
  ofd : list (Z * Z);      (* (descriptor, the description it shares) *)
  nonblock : list Z;       (* descriptions with O_NONBLOCK set *)
}.

(** The open file description behind a descriptor: the one it was
    duplicated onto, or its own. *)
Definition description (w : World) (fd : Z) : Z :=
  match find (fun p => fst p =? fd) (ofd w) with
  | Some p => snd p
  | None => fd
  end.

Definition record (e : Event) (w : World) : World :=
  {| open_fds := open_fds w; log := log w ++ [e];
     ofd := ofd w; nonblock := nonblock w |}.

(** [SetBlocking] on a descriptor: O_NONBLOCK is cleared on its open
    file description, hence for every descriptor that shares it. *)
Definition set_blocking (fd : Z) (w : World) : World :=
  {| open_fds := open_fds w; log := log w; ofd := ofd w;
     nonblock := remove Z.eq_dec (description w fd) (nonblock w) |}.

(** The entries of a closed descriptor leave the table. *)
Definition forget (fd : Z) (l : list (Z * Z)) : list (Z * Z) :=
  filter (fun p => negb (fst p =? fd)) l.

(** State and panic monad of the package's code. *)
Definition M (A : Type) : Type := World -> Outcome A * World.

Definition ret {A} (a : A) : M A := fun w => (Done a, w).

Definition bind {A B} (m : M A) (k : A -> M B) : M B :=
  fun w => match m w with
           | (Done a, w') => k a w'
           | (Panics p, w') => (Panics p, w')
           end.

Definition lift {A} (o : Outcome A) : M A := fun w => (o, w).

Notation "x <- m ;; k" := (bind m (fun x => k))
  (at level 61, m at next level, right associativity).
Notation "' pat <- m ;; k" := (bind m (fun x => match x with pat => k end))
  (at level 61, pat pattern, m at next level, right associativity).

(** [defer cleanup; body]: the deferred call runs when the body is left,
    by return or by panic, and does not change what the body yields. *)
Definition defer {A B} (cleanup : M B) (body : M A) : M A :=
  fun w => let (o, w1) := body w in
           let (_, w2) := cleanup w1 in
           (o, w2).

Section Primitives.
Variable P : Platform.
Variable K : Kernel.

(** [via.File()] *)
Definition File_ (via : UnixConn) : M (option File * error) :=
  fun w =>
    match k_dup K (log w) via with
    | Ok d => (Done (Some {| file_fd := d; file_name := EmptyString |}, None),
               {| open_fds := d :: open_fds w; log := log w ++ [EvFile via];
                  ofd := (d, description w (conn_sysfd via)) :: ofd w;
                  nonblock := nonblock w |})
    | Err e => (Done (None, Some e), record (EvFile via) w)
    end.

(** [f.Fd()]: yields the descriptor; a file in non-blocking mode is put
    into blocking mode first. A file counts as in non-blocking mode when
    its description has O_NONBLOCK set, which is how [os.NewFile] finds
    it out; clearing a flag that is not set changes nothing. *)
Definition Fd_ (f : option File) : M Z :=
  fun w => match f with
           | Some f' => (Done (Fd f), set_blocking (file_fd f') w)
           | None => (Done (Fd f), w)
           end.

(** [f.Close()] on a file made by [File_] *)
Definition Close (f : option File) : M error :=
  fun w => (Done None,
            {| open_fds := remove Z.eq_dec (Fd f) (open_fds w);
               log := log w ++ [EvClose (Fd f)];
               ofd := forget (Fd f) (ofd w);
               nonblock := nonblock w |}).

(** [make([]byte, n)] *)
Definition make_bytes (n : Z) : M (list byte) :=
  fun w => if (n <? 0) || (maxAlloc P <? n)
           then (Panics makeslice_len_out_of_range, w)
           else (Done (zeros n), record (EvMakeBytes n) w).

(** [syscall.Recvmsg(socket, nil, oob, 0)]: the kernel writes its
    control bytes over the front of [oob]; yields the buffer as it is
    after the call, and the error. *)
Definition Recvmsg (socket : Z) (oob : list byte) : M (list byte * error) :=
  fun w =>
    let w' := record (EvRecvmsg socket (len oob)) w in
    match k_recvmsg K (log w) socket (len oob) with
    | Ok written =>
        let wr := firstn (length oob) written in
        (Done (wr ++ skipn (length wr) oob, None), w')
    | Err e => (Done (oob, Some e), w')
    end.

(** [syscall.Sendmsg(socket, nil, oob, nil, 0)] *)
Definition Sendmsg (socket : Z) (oob : list byte) : M error :=
  fun w => (Done (k_sendmsg K (log w) socket oob),
            record (EvSendmsg socket oob) w).

(** [os.NewFile(uintptr(fd), name)]: nil for a negative descriptor. *)
Definition NewFile (fd : Z) (name : string) : M (option File) :=
  fun w => if fd <? 0 then (Done None, w)
           else (Done (Some {| file_fd := fd; file_name := name |}),
                 record (EvNewFile fd name) w).
End Primitives.

(* ================================================================== *)
(** ** Package fd *)
(* ================================================================== *)

Section Package.
Variable P : Platform.
Variable K : Kernel.

(** The inner loop of [Get]: [for fi, fd := range fds { ... }]. *)
Fixpoint range_fds (filenames : list string) (fds : list Z) (fi : nat)
    (res : list (option File)) : M (list (option File)) :=
  match fds with
  | [] => ret res
  | fd :: rest =>
      let filename :=
        if (fi <? length filenames)%nat then nth fi filenames EmptyString
        else EmptyString in
      f <- NewFile fd filename ;;
      range_fds filenames rest (S fi) (res ++ [f])
  end.

(** The outer loop of [Get]:
    [for i := 0; i < len(msgs) && err == nil; i++ { ... }]. *)
Fixpoint msgs_loop (filenames : list string)
    (msgs : list Syscall.SocketControlMessage) (err : error)
    (res : list (option File)) : M (list (option File) * error) :=
  match msgs, err with
  | m :: rest, None =>
      '(fds, err') <- lift (Syscall.ParseUnixRights P m) ;;
      res' <- range_fds filenames fds 0 res ;;
      msgs_loop filenames rest err' res'
  | _, _ => ret (res, err)
  end.

Definition Get (via : UnixConn) (num : Z) (filenames : list string)
  : M (list (option File) * error) :=
  if num <? 1 then ret ([], None)
  else
    '(viaf, err) <- File_ K via ;;
    match err with
    | Some e => ret ([], Some e)
    | None =>
        socket <- Fd_ viaf ;;
        defer (Close viaf)
          (buf <- make_bytes P (Syscall.CmsgSpace P (wrapInt P (num * 4))) ;;
           '(buf', err) <- Recvmsg K socket buf ;;
           match err with
           | Some e => ret ([], Some e)
           | None =>
               '(msgs, err) <- lift (Syscall.ParseSocketControlMessage P buf') ;;
               msgs_loop filenames msgs err []
           end)
    end.

(** The loop of [Put]: [for i := range files { fds[i] = int(files[i].Fd()) }],
    the descriptors gathered in order. *)
Fixpoint range_files (files : list (option File)) (fds : list Z)
  : M (list Z) :=
  match files with
  | [] => ret fds
  | f :: rest => fd <- Fd_ f ;; range_files rest (fds ++ [fd])
  end.

Definition Put (via : UnixConn) (files : list (option File)) : M error :=
  if len files =? 0 then ret None
  else
    '(viaf, err) <- File_ K via ;;
    match err with
    | Some e => ret (Some e)
    | None =>
        socket <- Fd_ viaf ;;
        defer (Close viaf)
          (fds <- range_files files [] ;;
           let rights := Syscall.UnixRights P fds in
           Sendmsg K socket rights)
    end.
End Package.

(* ================================================================== *)
(** ** Vocabulary of the statements *)
(* ================================================================== *)

(** The size [Get] asks [make] for: [syscall.CmsgSpace(num*4)]. *)
Definition Get_bufsize (P : Platform) (num : Z) : Z :=
  Syscall.CmsgSpace P (wrapInt P (num * 4)).

Definition allocatable (P : Platform) (n : Z) : bool :=
  (0 <=? n) && (n <=? maxAlloc P).

(** The oob buffer after a receive that wrote [written] over zeros. *)
Definition overwrite (buf written : list byte) : list byte :=
  let wr := firstn (length buf) written in wr ++ skipn (length wr) buf.

(** [received P K via num w = Some (d, buf)]: a call [Get(via, num, _)]
    made in world [w] gets the duplicate [d], allocates its buffer, and
    the receive succeeds leaving [buf] in it. *)
Definition received (P : Platform) (K : Kernel) (via : UnixConn) (num : Z)
    (w : World) : option (Z * list byte) :=
  if num <? 1 then None
  else match k_dup K (log w) via with
       | Err _ => None
       | Ok d =>
           let n := Get_bufsize P num in
           if allocatable P n then
             match k_recvmsg K (log w ++ [EvFile via; EvMakeBytes n]) d n with
             | Ok written => Some (d, overwrite (zeros n) written)
             | Err _ => None
             end
           else None
       end.

(** [name_at filenames fi]: the inner loop's choice of a file name. *)
Definition name_at (filenames : list string) (fi : nat) : string :=
  if (fi <? length filenames)%nat then nth fi filenames EmptyString
  else EmptyString.

(** The handle [os.NewFile] yields, without the bookkeeping. *)
Definition new_file (fd : Z) (name : string) : option File :=
  if fd <? 0 then None else Some {| file_fd := fd; file_name := name |}.

(** Handles the inner loop makes of one message's descriptors, its index
    starting at [fi]. *)
Fixpoint handles_from (filenames : list string) (fds : list Z) (fi : nat)
  : list (option File) :=
  match fds with
  | [] => []
  | fd :: rest =>
      new_file fd (name_at filenames fi) :: handles_from filenames rest (S fi)
  end.

(** Handles of a sequence of messages, given the descriptors of each. *)
Definition handles_of (filenames : list string) (fdss : list (list Z))
  : list (option File) :=
  flat_map (fun fds => handles_from filenames fds 0) fdss.

(** The specification's pairing: one index over all descriptors. *)
Definition handles_flat (filenames : list string) (fdss : list (list Z))
  : list (option File) :=
  handles_from filenames (concat fdss) 0.

Definition newfile_events (hs : list (option File)) : list Event :=
  flat_map (fun h => match h with
                     | Some f => [EvNewFile (file_fd f) (file_name f)]
                     | None => []
                     end) hs.

(** [extracts P msgs fdss]: [ParseUnixRights] succeeds on each message
    of [msgs], with the descriptors listed in [fdss]. *)
Definition extracts (P : Platform) (msgs : list Syscall.SocketControlMessage)
    (fdss : list (list Z)) : Prop :=
  Forall2 (fun m fds => Syscall.ParseUnixRights P m = Done (fds, None))
          msgs fdss.



Definition is_recvmsg (e : Event) : bool :=
  match e with EvRecvmsg _ _ => true | _ => false end.

Definition is_sendmsg (e : Event) : bool :=
  match e with EvSendmsg _ _ => true | _ => false end.

Definition is_newfile (e : Event) : bool :=
  match e with EvNewFile _ _ => true | _ => false end.


(** The two failures [Get] can meet before it parses anything, each with
    the error the system reports and the events of such a call. *)
Inductive GetFailure (P : Platform) (K : Kernel) (via : UnixConn) (num : Z)
    (w : World) : Error -> list Event -> Prop :=
| get_access_failure e :
    k_dup K (log w) via = Err e ->
    GetFailure P K via num w e [EvFile via]
| get_receive_failure d e :
    k_dup K (log w) via = Ok d ->
    allocatable P (Get_bufsize P num) = true ->
    k_recvmsg K (log w ++ [EvFile via; EvMakeBytes (Get_bufsize P num)])
      d (Get_bufsize P num) = Err e ->
    GetFailure P K via num w e
      [EvFile via; EvMakeBytes (Get_bufsize P num);
       EvRecvmsg d (Get_bufsize P num); EvClose d].

(** The outcomes of [Put] once it has handles to send: the error (or
    nil) the system reports, and the events of such a call. *)
Inductive PutOutcome (P : Platform) (K : Kernel) (via : UnixConn)
    (files : list (option File)) (w : World) : error -> list Event -> Prop :=
| put_access_failure e :
    k_dup K (log w) via = Err e ->
    PutOutcome P K via files w (Some e) [EvFile via]
| put_sent d :
    k_dup K (log w) via = Ok d ->
    PutOutcome P K via files w
      (k_sendmsg K (log w ++ [EvFile via]) d
         (Syscall.UnixRights P (map Fd files)))
      [EvFile via; EvSendmsg d (Syscall.UnixRights P (map Fd files));
       EvClose d].


(** The world once [Fd()] has been called on each of [files]. *)
Fixpoint handles_read (files : list (option File)) (w : World) : World :=
  match files with
  | [] => w
  | Some f' :: rest => handles_read rest (set_blocking (file_fd f') w)
  | None :: rest => handles_read rest w
  end.

(** The world once [via.File()] has given the duplicate [d] and
    [viaf.Fd()] has been called on it. *)
Definition borrowed (via : UnixConn) (d : Z) (w : World) : World :=
  {| open_fds := d :: open_fds w; log := log w ++ [EvFile via];
     ofd := (d, description w (conn_sysfd via)) :: ofd w;
     nonblock := remove Z.eq_dec (description w (conn_sysfd via))
                   (nonblock w) |}.

(** Sample control data for linux/amd64: a message of level SOL_SOCKET
    and type 2 (credentials) with a four-byte payload, and a rights
    message whose header announces a five-byte payload. *)
Definition credentials_amd64 : list byte :=
  le_split 8 20 ++ le_split 4 1 ++ le_split 4 2 ++ le_split 4 99 ++ zeros 4.

Definition ragged_rights_amd64 : list byte :=
  le_split 8 21 ++ le_split 4 1 ++ le_split 4 1 ++ le_split 5 5.

(** Rounding up to a multiple of [a], as arithmetic. *)
Definition align (a x : Z) : Z := a * ((x + a - 1) / a).

(** Offset of the payload in a control message. *)
Definition hdrSpace (P : Platform) : Z :=
  Syscall.cmsgAlignOf P (Syscall.SizeofCmsghdr P).

(** Payload and message that [UnixRights] encodes for [fds]. *)
Definition rights_payload (P : Platform) (fds : list Z) : list byte :=
  flat_map (fun fd => store P 4 (int32 fd)) fds.

Definition rights_message (P : Platform) (fds : list Z)
  : Syscall.SocketControlMessage :=
  {| Syscall.Header := {| Syscall.Len := hdrSpace P + 4 * len fds;
                          Syscall.Level := SOL_SOCKET P;
                          Syscall.Type_ := SCM_RIGHTS |};
     Syscall.Data := rights_payload P fds |}.



(** What [platform_ok] says, as propositions. *)
Record platform_facts (P : Platform) : Prop := {
  pf_int : intBits P = 32 \/ intBits P = 64;
  pf_len : lenBytes P = 4%nat \/ lenBytes P = 8%nat;
  pf_align : exists k, 0 <= k <= 4 /\ salign P = 2 ^ k;
  pf_sol : 0 <= SOL_SOCKET P < 2 ^ 31;
}.

(** A kernel that always gives the same answers, for examples. *)
Definition scripted (dup : Result Z) (oob : Result (list byte)) (snd : error)
  : Kernel :=
  {| k_dup := fun _ _ => dup;
     k_recvmsg := fun _ _ _ => oob;
     k_sendmsg := fun _ _ _ => snd |}.

(** A world whose only descriptor is the socket 3 of a connection, in
    non-blocking mode as package net keeps its sockets. *)
Definition world0 : World :=
  {| open_fds := [3]; log := []; ofd := []; nonblock := [3] |}.
Definition conn0 : UnixConn := {| conn_sysfd := 3 |}.

(* ================================================================== *)
(** ** Lemmas on the monad and the loops *)
(* ================================================================== *)














(** The inner loop appends one handle per descriptor and records the
    handles it really made. *)
Lemma range_fds_spec filenames fds :
  forall fi res w,
    range_fds filenames fds fi res w
    = (Done (res ++ handles_from filenames fds fi),
       {| open_fds := open_fds w;
          log := log w ++ newfile_events (handles_from filenames fds fi);
          ofd := ofd w; nonblock := nonblock w |}).
Proof.
  induction fds as [|fd rest IH]; intros fi res w; simpl.
  - unfold ret. rewrite !app_nil_r. now destruct w.
  - unfold bind, NewFile, new_file, name_at.
    destruct (fd <? 0); simpl; rewrite IH; simpl;
      rewrite <- !app_assoc; reflexivity.
Qed.

Lemma newfile_events_app hs hs' :
  newfile_events (hs ++ hs') = newfile_events hs ++ newfile_events hs'.
Proof. unfold newfile_events. apply flat_map_app. Qed.

Lemma handles_of_app filenames fdss fdss' :
  handles_of filenames (fdss ++ fdss')
  = handles_of filenames fdss ++ handles_of filenames fdss'.
Proof. unfold handles_of. apply flat_map_app. Qed.

Lemma length_handles_from filenames fds :
  forall fi, length (handles_from filenames fds fi) = length fds.
Proof. induction fds; intros fi; simpl; auto. Qed.

Lemma length_handles_of filenames fdss :
  length (handles_of filenames fdss) = length (concat fdss).
Proof.
  induction fdss as [|fds rest IH]; [reflexivity|].
  change (handles_of filenames (fds :: rest))
    with (handles_from filenames fds 0 ++ handles_of filenames rest).
  simpl concat. rewrite !length_app, length_handles_from, IH. reflexivity.
Qed.

(** The outer loop runs through a prefix of messages that all extract. *)
Lemma msgs_loop_prefix P filenames pre fdss :
  extracts P pre fdss ->
  forall rest res w,
    msgs_loop P filenames (pre ++ rest) None res w
    = msgs_loop P filenames rest None (res ++ handles_of filenames fdss)
        {| open_fds := open_fds w;
           log := log w ++ newfile_events (handles_of filenames fdss);
           ofd := ofd w; nonblock := nonblock w |}.
Proof.
  induction 1 as [|m fds pre fdss Hm _ IH]; intros rest res w.
  - simpl. rewrite !app_nil_r. now destruct w.
  - simpl. unfold bind at 1, lift. rewrite Hm.
    unfold bind at 1. rewrite range_fds_spec. rewrite IH. simpl.
    rewrite newfile_events_app, <- !app_assoc. reflexivity.
Qed.

Lemma msgs_loop_all P filenames msgs fdss res w :
  extracts P msgs fdss ->
  msgs_loop P filenames msgs None res w
  = (Done (res ++ handles_of filenames fdss, None),
     {| open_fds := open_fds w;
        log := log w ++ newfile_events (handles_of filenames fdss);
        ofd := ofd w; nonblock := nonblock w |}).
Proof.
  intros H. rewrite <- (app_nil_r msgs).
  rewrite (msgs_loop_prefix P filenames msgs fdss H). reflexivity.
Qed.

(** An error of [ParseUnixRights] comes with no descriptors, and is
    [EINVAL]. *)
Lemma ParseUnixRights_error P m fds e :
  Syscall.ParseUnixRights P m = Done (fds, Some e) -> fds = [] /\ e = EINVAL.
Proof.
  unfold Syscall.ParseUnixRights.
  destruct (negb _); [intros H; inversion H; auto|].
  destruct (negb _); [intros H; inversion H; auto|].
  destruct (Syscall.rights_loop _ _); discriminate.
Qed.

(** The outer loop stops at the first message whose extraction returns
    an error, keeping what it has. *)
Lemma msgs_loop_error P filenames m post fds e res w :
  Syscall.ParseUnixRights P m = Done (fds, Some e) ->
  msgs_loop P filenames (m :: post) None res w = (Done (res, Some e), w).
Proof.
  intros H. destruct (ParseUnixRights_error P m fds e H) as [-> ->].
  simpl. unfold bind, lift. rewrite H. simpl.
  destruct post; reflexivity.
Qed.

(** The outer loop lets a panic of the extraction through. *)
Lemma msgs_loop_panic P filenames m post p res w :
  Syscall.ParseUnixRights P m = Panics p ->
  msgs_loop P filenames (m :: post) None res w = (Panics p, w).
Proof. intros H. simpl. unfold bind, lift. now rewrite H. Qed.

(** [Get] after a successful receive: parse, convert, close. *)
Lemma Get_received P K via num filenames w d buf :
  received P K via num w = Some (d, buf) ->
  Get P K via num filenames w
  = defer (Close (Some {| file_fd := d; file_name := EmptyString |}))
      ('(msgs, err) <- lift (Syscall.ParseSocketControlMessage P buf) ;;
       msgs_loop P filenames msgs err [])
      {| open_fds := d :: open_fds w;
         log := log w ++ [EvFile via; EvMakeBytes (Get_bufsize P num);
                          EvRecvmsg d (Get_bufsize P num)];
         ofd := ofd (borrowed via d w);
         nonblock := nonblock (borrowed via d w) |}.
Proof.
  unfold received, Get, Get_bufsize, allocatable.
  destruct (num <? 1); [discriminate|].
  unfold bind at 1, File_.
  destruct (k_dup K (log w) via) as [d'|e]; [|discriminate].
  unfold bind at 1, Fd_, set_blocking, description. simpl.
  rewrite Z.eqb_refl. simpl.
  set (n := Syscall.CmsgSpace P (wrapInt P (num * 4))).
  destruct ((0 <=? n) && (n <=? maxAlloc P)) eqn:Hn; [|discriminate].
  assert (Hmk : (n <? 0) || (maxAlloc P <? n) = false).
  { apply andb_prop in Hn. destruct Hn as [H1 H2].
    apply Z.leb_le in H1, H2. apply orb_false_iff.
    split; apply Z.ltb_ge; lia. }
  assert (Hlen : len (zeros n) = n).
  { apply andb_prop in Hn. destruct Hn as [H1 _]. apply Z.leb_le in H1.
    unfold len, zeros. rewrite repeat_length. lia. }
  simpl. unfold defer, bind at 1, make_bytes. rewrite Hmk.
  unfold bind at 1, Recvmsg, record. simpl. rewrite Hlen.
  rewrite <- app_assoc. simpl.
  destruct (k_recvmsg K _ d' n) as [written|e]; [|discriminate].
  intros H. inversion H; subst. unfold overwrite.
  rewrite <- !app_assoc. simpl. reflexivity.
Qed.



(** Reading the descriptors of the caller's handles leaves the open
    descriptors, the events and the table of descriptions alone. *)
Lemma handles_read_frame files :
  forall w, open_fds (handles_read files w) = open_fds w
            /\ log (handles_read files w) = log w
            /\ ofd (handles_read files w) = ofd w.
Proof.
  induction files as [|[f'|] rest IH]; intros w; simpl; auto.
  destruct (IH (set_blocking (file_fd f') w)) as [H1 [H2 H3]].
  rewrite H1, H2, H3. auto.
Qed.

(** The loop of [Put] gathers the descriptors in order. *)
Lemma range_files_spec files :
  forall fds w,
    range_files files fds w = (Done (fds ++ map Fd files), handles_read files w).
Proof.
  induction files as [|f rest IH]; intros fds w; simpl.
  - unfold ret. now rewrite app_nil_r.
  - unfold bind, Fd_. destruct f as [f'|]; rewrite IH, <- app_assoc;
      reflexivity.
Qed.

(** [Get] with every message extracted. *)
Lemma Get_all_extracted P K via num filenames w d buf msgs fdss :
  received P K via num w = Some (d, buf) ->
  Syscall.ParseSocketControlMessage P buf = Done (msgs, None) ->
  extracts P msgs fdss ->
  exists w', Get P K via num filenames w
             = (Done (handles_of filenames fdss, None), w').
Proof.
  intros Hr Hp He. rewrite (Get_received _ _ _ _ _ _ _ _ Hr).
  unfold defer, bind, lift. rewrite Hp.
  rewrite (msgs_loop_all _ _ _ _ _ _ He). simpl. eauto.
Qed.

(** [Get] when the extraction of some message returns an error. *)
Lemma Get_stops_at_error P K via num filenames w d buf pre m post fdss fds e :
  received P K via num w = Some (d, buf) ->
  Syscall.ParseSocketControlMessage P buf = Done (pre ++ m :: post, None) ->
  extracts P pre fdss ->
  Syscall.ParseUnixRights P m = Done (fds, Some e) ->
  exists w', Get P K via num filenames w
             = (Done (handles_of filenames fdss, Some e), w').
Proof.
  intros Hr Hp He Hm. rewrite (Get_received _ _ _ _ _ _ _ _ Hr).
  unfold defer, bind, lift. rewrite Hp.
  rewrite (msgs_loop_prefix _ _ _ _ He).
  rewrite (msgs_loop_error _ _ _ _ _ _ _ _ Hm). simpl. eauto.
Qed.

(* ================================================================== *)
(** ** The no-op paths *)
(* ================================================================== *)

(** C5. For every connection and every count below 1, [Get] returns an
    empty handle set and a nil error, and leaves the world exactly as it
    was: no duplicate of the connection's descriptor, no buffer, no
    receive. Being so for every world, any number of repeated calls
    leaves the world as it was. *)
Theorem Get_zero_count_noop P K via num filenames w (calls : nat) :
  num < 1 ->
  Get P K via num filenames w = (Done ([], None), w)
  /\ Nat.iter calls (fun w' => snd (Get P K via num filenames w')) w = w.
Proof.
  intros Hnum.
  assert (H : forall w', Get P K via num filenames w' = (Done ([], None), w')).
  { intros w'. unfold Get. apply Z.ltb_lt in Hnum. now rewrite Hnum. }
  split; [apply H|].
  induction calls as [|n IH]; simpl; [reflexivity|].
  rewrite IH, H. reflexivity.
Qed.

Lemma Get_zero_count_noop_witness :
  -2 < 1
  /\ Get linux_amd64 (scripted (Err (OpError "dup" 9)) (Err EINVAL) None)
       conn0 (-2) ["a"%string] world0 = (Done ([], None), world0)
  /\ Nat.iter 3
       (fun w' => snd (Get linux_amd64
                         (scripted (Err (OpError "dup" 9)) (Err EINVAL) None)
                         conn0 (-2) ["a"%string] w')) world0 = world0.
Proof.
  split; [lia|].
  apply (Get_zero_count_noop linux_amd64
           (scripted (Err (OpError "dup" 9)) (Err EINVAL) None)
           conn0 (-2) ["a"%string] world0 3).
  lia.
Defined.

(** C6. For every connection, [Put] with no handles returns a nil error
    and leaves the world exactly as it was: no duplicate of the
    connection's descriptor, no send. *)
Theorem Put_no_handles_noop P K via w :
  Put P K via [] w = (Done None, w).
Proof. reflexivity. Qed.

(* ================================================================== *)
(** ** The borrowed descriptor *)
(* ================================================================== *)

Lemma Get_after_dup P K via num filenames w d :
  1 <= num -> k_dup K (log w) via = Ok d ->
  Get P K via num filenames w
  = defer (Close (Some {| file_fd := d; file_name := EmptyString |}))
      (buf <- make_bytes P (Get_bufsize P num) ;;
       '(buf', err) <- Recvmsg K d buf ;;
       match err with
       | Some e => ret ([], Some e)
       | None =>
           '(msgs, err) <- lift (Syscall.ParseSocketControlMessage P buf') ;;
           msgs_loop P filenames msgs err []
       end)
      (borrowed via d w).
Proof.
  intros Hnum Hd. unfold Get.
  assert (H : (num <? 1) = false) by (apply Z.ltb_ge; lia). rewrite H.
  unfold bind at 1, File_. rewrite Hd.
  unfold bind at 1, Fd_, set_blocking, description, borrowed. simpl.
  rewrite Z.eqb_refl. reflexivity.
Qed.

Lemma Put_after_dup P K via files w d :
  files <> [] -> k_dup K (log w) via = Ok d ->
  Put P K via files w
  = defer (Close (Some {| file_fd := d; file_name := EmptyString |}))
      (Sendmsg K d (Syscall.UnixRights P (map Fd files)))
      (handles_read files (borrowed via d w)).
Proof.
  intros Hf Hd. unfold Put.
  assert (H : (len files =? 0) = false).
  { apply Z.eqb_neq. unfold len. destruct files; [congruence|]. simpl. lia. }
  rewrite H. unfold bind at 1, File_. rewrite Hd.
  unfold bind at 1, Fd_, set_blocking, description, borrowed.
  cbn [fst snd ofd find file_fd Fd open_fds log nonblock].
  rewrite Z.eqb_refl.
  unfold defer, bind at 1. rewrite range_files_spec. reflexivity.
Qed.

















(* ================================================================== *)
(** ** Errors of the system *)
(* ================================================================== *)

(** [Get] when the receive fails. *)
Lemma Get_receive_fails P K via num filenames w d e :
  1 <= num -> k_dup K (log w) via = Ok d ->
  allocatable P (Get_bufsize P num) = true ->
  k_recvmsg K (log w ++ [EvFile via; EvMakeBytes (Get_bufsize P num)])
    d (Get_bufsize P num) = Err e ->
  Get P K via num filenames w
  = (Done ([], Some e),
     {| open_fds := remove Z.eq_dec d (d :: open_fds w);
        log := log w ++ [EvFile via; EvMakeBytes (Get_bufsize P num);
                         EvRecvmsg d (Get_bufsize P num); EvClose d];
        ofd := forget d (ofd (borrowed via d w));
        nonblock := nonblock (borrowed via d w) |}).
Proof.
  intros Hnum Hd Ha Hr.
  rewrite (Get_after_dup P K via num filenames w d Hnum Hd).
  unfold allocatable in Ha. apply andb_prop in Ha. destruct Ha as [H0 H1].
  apply Z.leb_le in H0, H1.
  assert (Hmk : (Get_bufsize P num <? 0)
                || (maxAlloc P <? Get_bufsize P num) = false).
  { apply orb_false_iff. split; apply Z.ltb_ge; lia. }
  assert (Hlen : len (zeros (Get_bufsize P num)) = Get_bufsize P num).
  { unfold len, zeros. rewrite repeat_length. lia. }
  unfold defer, bind at 1, make_bytes. rewrite Hmk.
  unfold bind at 1, Recvmsg, record. simpl. rewrite Hlen.
  rewrite <- app_assoc. simpl. rewrite Hr. simpl.
  rewrite <- ?app_assoc. reflexivity.
Qed.

(** C8. For every call of [Get] with count at least 1 in which the
    duplication of the descriptor or the receive fails with [e], [Get]
    returns no handles and [e] itself; the events of the call show at
    most one receive and no handle made. For every call of [Put] with
    at least one handle, the error of the duplication, or whatever the
    one send reports, is returned as it is; the events show at most one
    send. *)
Theorem errors_returned_without_retry
    P K via w num filenames files e evs e' evs' :
  1 <= num -> files <> [] ->
  GetFailure P K via num w e evs ->
  PutOutcome P K via files w e' evs' ->
  (fst (Get P K via num filenames w) = Done ([], Some e)
   /\ log (snd (Get P K via num filenames w)) = log w ++ evs
   /\ (length (filter is_recvmsg evs) <= 1)%nat
   /\ forallb (fun ev => negb (is_newfile ev)) evs = true)
  /\ (fst (Put P K via files w) = Done e'
      /\ log (snd (Put P K via files w)) = log w ++ evs'
      /\ (length (filter is_sendmsg evs') <= 1)%nat).
Proof.
  intros Hnum Hfiles HG HP. split.
  - destruct HG as [e Hd | d e Hd Ha Hr].
    + unfold Get. assert (H : (num <? 1) = false) by (apply Z.ltb_ge; lia).
      rewrite H. unfold bind, File_. rewrite Hd. simpl. auto.
    + rewrite (Get_receive_fails P K via num filenames w d e Hnum Hd Ha Hr).
      simpl. auto.
  - destruct HP as [e' Hd | d Hd].
    + unfold Put. assert (H : (len files =? 0) = false).
      { apply Z.eqb_neq. unfold len. destruct files; [congruence|]. simpl. lia. }
      rewrite H. unfold bind, File_. rewrite Hd. simpl. auto.
    + rewrite (Put_after_dup P K via files w d Hfiles Hd).
      destruct (handles_read_frame files (borrowed via d w)) as [_ [Hl _]].
      unfold defer, Sendmsg, record. simpl. rewrite Hl. simpl.
      rewrite <- ?app_assoc. simpl. auto.
Qed.

Lemma errors_returned_without_retry_witness :
  let K := scripted (Ok 7) (Err (Errno 11)) (Some (Errno 32)) in
  let files := [Some {| file_fd := 4; file_name := "a" |}] in
  let evs := [EvFile conn0; EvMakeBytes 24; EvRecvmsg 7 24; EvClose 7] in
  let evs' := [EvFile conn0;
               EvSendmsg 7 (Syscall.UnixRights linux_amd64 [4]); EvClose 7] in
  (1 <= 2 /\ files <> []
   /\ GetFailure linux_amd64 K conn0 2 world0 (Errno 11) evs
   /\ PutOutcome linux_amd64 K conn0 files world0 (Some (Errno 32)) evs')
  /\ fst (Get linux_amd64 K conn0 2 [] world0) = Done ([], Some (Errno 11))
  /\ fst (Put linux_amd64 K conn0 files world0) = Done (Some (Errno 32)).
Proof.
  intros K files evs evs'.
  assert (H1 : 1 <= 2) by lia.
  assert (H2 : files <> []) by discriminate.
  assert (H3 : GetFailure linux_amd64 K conn0 2 world0 (Errno 11) evs).
  { apply (get_receive_failure linux_amd64 K conn0 2 world0 7 (Errno 11));
      reflexivity. }
  assert (H4 : PutOutcome linux_amd64 K conn0 files world0
                 (Some (Errno 32)) evs').
  { apply (put_sent linux_amd64 K conn0 files world0 7). reflexivity. }
  split; [auto|].
  destruct (errors_returned_without_retry linux_amd64 K conn0 world0 2 []
              files (Errno 11) evs (Some (Errno 32)) evs' H1 H2 H3 H4)
    as [[HG _] [HP _]].
  split; assumption.
Defined.

(* ================================================================== *)
(** ** What [Get] makes of the received buffer *)
(* ================================================================== *)

(** The loops consult neither the kernel nor the world: what they yield
    is the same in every world. *)
Lemma msgs_loop_outcome P filenames msgs :
  forall err res w w',
    fst (msgs_loop P filenames msgs err res w)
    = fst (msgs_loop P filenames msgs err res w').
Proof.
  induction msgs as [|m rest IH]; intros err res w w'.
  - destruct err; reflexivity.
  - destruct err as [e|]; [reflexivity|].
    simpl. unfold bind at 1 3, lift.
    destruct (Syscall.ParseUnixRights P m) as [[fds err']|p]; [|reflexivity].
    unfold bind. rewrite !range_fds_spec. apply IH.
Qed.

Lemma Get_outcome_from_buffer P K via num filenames w d buf K2 via2 num2 w2 d2 :
  received P K via num w = Some (d, buf) ->
  received P K2 via2 num2 w2 = Some (d2, buf) ->
  fst (Get P K2 via2 num2 filenames w2) = fst (Get P K via num filenames w).
Proof.
  intros H1 H2.
  rewrite (Get_received _ _ _ _ filenames _ _ _ H1).
  rewrite (Get_received _ _ _ _ filenames _ _ _ H2).
  unfold defer, bind, lift.
  destruct (Syscall.ParseSocketControlMessage P buf) as [[msgs err]|p];
    [|reflexivity].
  match goal with
  | |- fst (let (_, _) := ?f ?a in _) = fst (let (_, _) := ?f ?b in _) =>
      pose proof (msgs_loop_outcome P filenames msgs err [] a b) as Ho;
      destruct (f a), (f b)
  end.
  simpl in *. assumption.
Qed.

(** C2. For every call of [Get] whose received buffer decodes into
    control messages of which the first [k-1] extract and the [k]-th
    makes the extraction return an error, [Get] returns the handles of
    the first [k-1] messages, one per descriptor, together with that
    (non-nil) error. *)
Theorem Get_partial_result_with_error
    P K via num filenames w d buf pre m post fdss fds e :
  received P K via num w = Some (d, buf) ->
  Syscall.ParseSocketControlMessage P buf = Done (pre ++ m :: post, None) ->
  extracts P pre fdss ->
  Syscall.ParseUnixRights P m = Done (fds, Some e) ->
  (exists w', Get P K via num filenames w
              = (Done (handles_of filenames fdss, Some e), w'))
  /\ length (handles_of filenames fdss) = length (concat fdss).
Proof.
  intros Hr Hp He Hm. split.
  - exact (Get_stops_at_error P K via num filenames w d buf pre m post
             fdss fds e Hr Hp He Hm).
  - apply length_handles_of.
Qed.

(** C9, as the code has it. [Get] never compares what it received with
    the count: for every call with count at least 1 whose received
    buffer decodes into messages that all extract, [Get] returns a nil
    error and as many handles as descriptors were decoded, whatever the
    count; and any two calls that are left with the same buffer yield
    the same handles and error, whatever their counts: the count acts
    through the size of the buffer only. *)
Theorem Get_never_checks_count P K via num filenames w d buf msgs fdss :
  received P K via num w = Some (d, buf) ->
  Syscall.ParseSocketControlMessage P buf = Done (msgs, None) ->
  extracts P msgs fdss ->
  (exists res w', Get P K via num filenames w = (Done (res, None), w')
                  /\ length res = length (concat fdss))
  /\ (forall K2 via2 num2 w2 d2,
         received P K2 via2 num2 w2 = Some (d2, buf) ->
         fst (Get P K2 via2 num2 filenames w2)
         = fst (Get P K via num filenames w)).
Proof.
  intros Hr Hp He. split.
  - destruct (Get_all_extracted P K via num filenames w d buf msgs fdss
                Hr Hp He) as [w' Hw'].
    exists (handles_of filenames fdss), w'. split; [assumption|].
    apply length_handles_of.
  - intros K2 via2 num2 w2 d2 H2.
    exact (Get_outcome_from_buffer P K via num filenames w d buf
             K2 via2 num2 w2 d2 Hr H2).
Qed.

(** C9, as stated, fails: a mismatch with the count can produce an
    error. [Get(conn, 5, _)] on linux/amd64 offers a buffer of 40
    bytes. When the kernel delivers one rights message with a single
    descriptor (24 bytes), [Get] parses the whole buffer, not only the
    bytes received: the 16 zero bytes behind the message are read as a
    header of length 0, the decoding returns [EINVAL], and [Get]
    returns that error and no handle. The same message received by
    [Get(conn, 1, _)] gives one handle and no error. *)
Lemma Get_short_message_is_an_error :
  let msg := Syscall.UnixRights linux_amd64 [5] in
  let K := scripted (Ok 7) (Ok msg) None in
  received linux_amd64 K conn0 5 world0 = Some (7, msg ++ zeros 16)
  /\ Syscall.ParseSocketControlMessage linux_amd64 (msg ++ zeros 16)
     = Done ([], Some EINVAL)
  /\ fst (Get linux_amd64 K conn0 5 [] world0) = Done ([], Some EINVAL)
  /\ fst (Get linux_amd64 K conn0 1 [] world0)
     = Done ([Some {| file_fd := 5; file_name := "" |}], None).
Proof.
  intros msg K. repeat split; vm_compute; reflexivity.
Qed.


Lemma Get_partial_result_with_error_witness :
  let buf := Syscall.UnixRights linux_amd64 [5] ++ credentials_amd64 in
  let K := scripted (Ok 7) (Ok buf) None in
  let m1 := {| Syscall.Header :=
                 {| Syscall.Len := 20; Syscall.Level := 1; Syscall.Type_ := 1 |};
               Syscall.Data := le_split 4 5 |} in
  let m2 := {| Syscall.Header :=
                 {| Syscall.Len := 20; Syscall.Level := 1; Syscall.Type_ := 2 |};
               Syscall.Data := le_split 4 99 |} in
  (received linux_amd64 K conn0 7 world0 = Some (7, buf)
   /\ Syscall.ParseSocketControlMessage linux_amd64 buf
      = Done ([m1] ++ m2 :: [], None)
   /\ extracts linux_amd64 [m1] [[5]]
   /\ Syscall.ParseUnixRights linux_amd64 m2 = Done ([], Some EINVAL))
  /\ exists w', Get linux_amd64 K conn0 7 ["first"%string] world0
                = (Done ([Some {| file_fd := 5; file_name := "first" |}],
                         Some EINVAL), w').
Proof.
  intros buf K m1 m2.
  assert (H1 : received linux_amd64 K conn0 7 world0 = Some (7, buf))
    by (vm_compute; reflexivity).
  assert (H2 : Syscall.ParseSocketControlMessage linux_amd64 buf
               = Done ([m1] ++ m2 :: [], None)) by (vm_compute; reflexivity).
  assert (H3 : extracts linux_amd64 [m1] [[5]])
    by (repeat constructor).
  assert (H4 : Syscall.ParseUnixRights linux_amd64 m2 = Done ([], Some EINVAL))
    by reflexivity.
  split; [auto|].
  exact (proj1 (Get_partial_result_with_error linux_amd64 K conn0 7
                  ["first"%string] world0 7 buf [m1] m2 [] [[5]] [] EINVAL
                  H1 H2 H3 H4)).
Defined.

Lemma Get_never_checks_count_witness :
  let buf := Syscall.UnixRights linux_amd64 [5; 6] in
  let K := scripted (Ok 7) (Ok buf) None in
  let m := {| Syscall.Header :=
                {| Syscall.Len := 24; Syscall.Level := 1; Syscall.Type_ := 1 |};
              Syscall.Data := le_split 4 5 ++ le_split 4 6 |} in
  (received linux_amd64 K conn0 1 world0 = Some (7, buf)
   /\ Syscall.ParseSocketControlMessage linux_amd64 buf = Done ([m], None)
   /\ extracts linux_amd64 [m] [[5; 6]])
  /\ exists res w', Get linux_amd64 K conn0 1 [] world0 = (Done (res, None), w')
                    /\ length res = 2%nat.
Proof.
  intros buf K m.
  assert (H1 : received linux_amd64 K conn0 1 world0 = Some (7, buf))
    by (vm_compute; reflexivity).
  assert (H2 : Syscall.ParseSocketControlMessage linux_amd64 buf
               = Done ([m], None)) by (vm_compute; reflexivity).
  assert (H3 : extracts linux_amd64 [m] [[5; 6]]) by (repeat constructor).
  split; [auto|].
  exact (proj1 (Get_never_checks_count linux_amd64 K conn0 1 [] world0 7 buf
                  [m] [[5; 6]] H1 H2 H3)).
Defined.



(* ================================================================== *)
(** ** Names of the handles *)
(* ================================================================== *)

(** What the code does with the names: the index into [filenames] is the
    position of the descriptor within its own message. *)
Lemma Get_names_by_message P K via num filenames w d buf msgs fdss :
  received P K via num w = Some (d, buf) ->
  Syscall.ParseSocketControlMessage P buf = Done (msgs, None) ->
  extracts P msgs fdss ->
  fst (Get P K via num filenames w) = Done (handles_of filenames fdss, None).
Proof.
  intros Hr Hp He.
  destruct (Get_all_extracted P K via num filenames w d buf msgs fdss
              Hr Hp He) as [w' ->].
  reflexivity.
Qed.

(** With a single message the two pairings coincide. *)
Lemma handles_of_single filenames fds :
  handles_of filenames [fds] = handles_flat filenames [fds].
Proof. unfold handles_of, handles_flat. simpl. now rewrite !app_nil_r. Qed.

(** C1 fails on the code. A call [Get(conn, 7, ["first"])] on
    linux/amd64 (and [Get(conn, 5, ["first"])] on darwin/amd64) whose
    buffer holds two rights messages of one descriptor each returns two
    handles both named "first": the name index restarts with each
    message. The pairing of the claim, one index over the flattened
    descriptors, names them "first" and "". *)
Theorem Get_names_restart_with_each_message :
  let names := ["first"%string] in
  let run P num :=
    Get P (scripted (Ok 7)
             (Ok (Syscall.UnixRights P [5] ++ Syscall.UnixRights P [6])) None)
      conn0 num names world0 in
  fst (run linux_amd64 7)
  = Done ([Some {| file_fd := 5; file_name := "first" |};
           Some {| file_fd := 6; file_name := "first" |}], None)
  /\ fst (run darwin_amd64 5)
     = Done ([Some {| file_fd := 5; file_name := "first" |};
              Some {| file_fd := 6; file_name := "first" |}], None)
  /\ handles_flat names [[5]; [6]]
     = [Some {| file_fd := 5; file_name := "first" |};
        Some {| file_fd := 6; file_name := "" |}].
Proof.
  intros names run. repeat split; vm_compute; reflexivity.
Qed.

(* ================================================================== *)
(** ** Size of the receive buffer *)
(* ================================================================== *)


(* ================================================================== *)
(** ** The codec: sizes, byte order, round trip *)
(* ================================================================== *)

Lemma wrapSigned_small bits z :
  0 < bits -> - 2 ^ (bits - 1) <= z < 2 ^ (bits - 1) -> wrapSigned bits z = z.
Proof.
  intros Hb Hz. unfold wrapSigned.
  assert (H2 : 2 ^ bits = 2 * 2 ^ (bits - 1)).
  { rewrite <- Z.pow_succ_r by lia. f_equal. lia. }
  rewrite Z.mod_small by lia. lia.
Qed.

Lemma wrapSigned_mod bits z :
  0 < bits -> wrapSigned bits (z mod 2 ^ bits) = wrapSigned bits z.
Proof.
  intros Hb. unfold wrapSigned.
  rewrite Zplus_mod_idemp_l. reflexivity.
Qed.

Lemma land_lnot_pow2 k y :
  0 <= k -> Z.land y (Z.lnot (2 ^ k - 1)) = 2 ^ k * (y / 2 ^ k).
Proof.
  intros Hk. rewrite <- Z.ldiff_land.
  replace (2 ^ k - 1) with (Z.ones k) by (rewrite Z.ones_equiv; lia).
  rewrite Z.ldiff_ones_r by assumption.
  rewrite Z.shiftl_mul_pow2, Z.shiftr_div_pow2 by assumption. lia.
Qed.

Lemma align_bounds a x : 0 < a -> x <= align a x < x + a.
Proof.
  intros Ha. unfold align.
  pose proof (Z.div_mod (x + a - 1) a ltac:(lia)).
  pose proof (Z.mod_pos_bound (x + a - 1) a Ha). lia.
Qed.

Lemma align_add_multiple a h x : 0 < a -> align a (a * h + x) = a * h + align a x.
Proof.
  intros Ha. unfold align.
  replace (a * h + x + a - 1) with (x + a - 1 + h * a) by lia.
  rewrite Z.div_add by lia. lia.
Qed.

Lemma platform_ok_facts P : platform_ok P = true -> platform_facts P.
Proof.
  unfold platform_ok. rewrite !andb_true_iff, !orb_true_iff.
  intros [[[[[Hi Hl] Ha] Hs0] Hs1] _].
  constructor.
  - rewrite !Z.eqb_eq in Hi. exact Hi.
  - rewrite !Nat.eqb_eq in Hl. exact Hl.
  - simpl in Ha. rewrite !orb_true_iff, !Z.eqb_eq in Ha.
    destruct Ha as [H|[H|[H|[H|[H|H]]]]]; try discriminate;
      [exists 0|exists 1|exists 2|exists 3|exists 4]; rewrite H; split; (lia || reflexivity).
  - apply Z.leb_le in Hs0. apply Z.ltb_lt in Hs1. lia.
Qed.

Section Codec.
Variable P : Platform.
Hypothesis HP : platform_facts P.

Lemma salign_range : 1 <= salign P <= 16.
Proof.
  destruct (pf_align P HP) as [k [Hk ->]].
  assert (2 ^ 0 <= 2 ^ k <= 2 ^ 4) by (split; apply Z.pow_le_mono_r; lia).
  simpl in *. lia.
Qed.

Lemma wrapInt_small z : - 2 ^ 31 <= z < 2 ^ 31 -> wrapInt P z = z.
Proof.
  intros Hz. unfold wrapInt.
  destruct (pf_int P HP) as [-> | ->]; apply wrapSigned_small; simpl; lia.
Qed.

Lemma cmsgAlignOf_spec x :
  0 <= x < 2 ^ 31 - 16 -> Syscall.cmsgAlignOf P x = align (salign P) x.
Proof.
  intros Hx. unfold Syscall.cmsgAlignOf, align.
  pose proof salign_range as Hs.
  rewrite wrapInt_small by lia.
  destruct (pf_align P HP) as [k [Hk Hk']]. rewrite Hk'.
  apply land_lnot_pow2. lia.
Qed.

Lemma SizeofCmsghdr_cases :
  Syscall.SizeofCmsghdr P = 12 \/ Syscall.SizeofCmsghdr P = 16.
Proof.
  unfold Syscall.SizeofCmsghdr.
  destruct (pf_len P HP) as [-> | ->]; simpl; auto.
Qed.

(** The aligned header size. *)
Lemma header_space :
  exists q, Syscall.cmsgAlignOf P (Syscall.SizeofCmsghdr P) = salign P * q
            /\ Syscall.SizeofCmsghdr P <= salign P * q < Syscall.SizeofCmsghdr P + salign P.
Proof.
  pose proof salign_range as Hs.
  rewrite cmsgAlignOf_spec by (destruct SizeofCmsghdr_cases as [-> | ->]; simpl; lia).
  exists ((Syscall.SizeofCmsghdr P + salign P - 1) / salign P).
  split; [reflexivity|]. apply align_bounds. lia.
Qed.

Lemma CmsgLen_spec d :
  0 <= d < 2 ^ 31 - 64 ->
  Syscall.CmsgLen P d = Syscall.cmsgAlignOf P (Syscall.SizeofCmsghdr P) + d.
Proof.
  intros Hd. unfold Syscall.CmsgLen.
  destruct header_space as [q [Hq Hb]]. pose proof salign_range.
  destruct SizeofCmsghdr_cases as [Hs | Hs]; rewrite Hs in *;
    apply wrapInt_small; simpl; lia.
Qed.

Lemma CmsgSpace_spec d :
  0 <= d < 2 ^ 31 - 64 ->
  Syscall.CmsgSpace P d
  = Syscall.cmsgAlignOf P (Syscall.SizeofCmsghdr P) + align (salign P) d.
Proof.
  intros Hd. unfold Syscall.CmsgSpace.
  destruct header_space as [q [Hq Hb]]. pose proof salign_range.
  rewrite (cmsgAlignOf_spec d) by (simpl; lia).
  pose proof (align_bounds (salign P) d ltac:(lia)).
  destruct SizeofCmsghdr_cases as [Hs | Hs]; rewrite Hs in *;
    apply wrapInt_small; simpl; lia.
Qed.

Lemma length_store n z : length (store P n z) = n.
Proof.
  unfold store. destruct (bigEndian P);
    rewrite ?length_rev; apply length_le_split.
Qed.

Lemma load_store n z : load P (store P n z) = z mod 2 ^ (Z.of_nat n * 8).
Proof.
  unfold load, store. destruct (bigEndian P);
    rewrite ?rev_involutive; apply le_combine_split.
Qed.

Lemma load_int32_store z : load_int32 P (store P 4 z) = int32 z.
Proof.
  unfold load_int32, int32. rewrite load_store.
  change (Z.of_nat 4 * 8) with 32. apply wrapSigned_mod. lia.
Qed.

Lemma int32_small z : - 2 ^ 31 <= z < 2 ^ 31 -> int32 z = z.
Proof. intros H. apply wrapSigned_small; simpl; lia. Qed.

Lemma int32_idem z : int32 (int32 z) = int32 z.
Proof.
  apply int32_small. unfold int32, wrapSigned.
  pose proof (Z.mod_pos_bound (z + 2 ^ (32 - 1)) (2 ^ 32) ltac:(lia)).
  simpl in *. lia.
Qed.

Lemma store_4_cases z :
  exists b0 b1 b2 b3, store P 4 z = [b0; b1; b2; b3].
Proof.
  unfold store, le_split.
  destruct (bigEndian P); simpl; eauto.
Qed.

Lemma rights_loop_store fds :
  Syscall.rights_loop P (flat_map (fun fd => store P 4 (int32 fd)) fds)
  = Done (map int32 fds).
Proof.
  induction fds as [|fd rest IH]; [reflexivity|].
  cbn [flat_map map].
  pose proof (load_int32_store (int32 fd)) as Hl.
  destruct (store_4_cases (int32 fd)) as [b0 [b1 [b2 [b3 Hs]]]].
  rewrite Hs in *. cbn [app Syscall.rights_loop].
  rewrite IH, Hl. f_equal. f_equal. apply int32_idem.
Qed.

Lemma length_flat_store fds :
  len (flat_map (fun fd => store P 4 (int32 fd)) fds) = 4 * len fds.
Proof.
  unfold len. induction fds as [|fd rest IH]; [reflexivity|].
  cbn [flat_map]. rewrite length_app, length_store. simpl length. lia.
Qed.
End Codec.

Lemma firstn_exact {A} (l r : list A) n : length l = n -> firstn n (l ++ r) = l.
Proof.
  intros <-. rewrite firstn_app, Nat.sub_diag, firstn_all. simpl.
  apply app_nil_r.
Qed.

Lemma skipn_exact {A} (l r : list A) n : length l = n -> skipn n (l ++ r) = r.
Proof.
  intros <-. rewrite skipn_app, Nat.sub_diag, skipn_all. reflexivity.
Qed.

Lemma length_zeros n : 0 <= n -> len (zeros n) = n.
Proof. intros H. unfold len, zeros. rewrite repeat_length. lia. Qed.

Lemma len_nonneg {A} (l : list A) : 0 <= len l.
Proof. unfold len. lia. Qed.

Lemma len_app {A} (l r : list A) : len (l ++ r) = len l + len r.
Proof. unfold len. rewrite length_app. lia. Qed.

Ltac pow31 := change (2 ^ 31) with 2147483648 in *.

Section RoundTrip.
Variable P : Platform.
Hypothesis HP : platform_facts P.
Variable fds : list Z.
Hypothesis Hsmall : 4 * len fds + 64 < 2 ^ 31.

Lemma datalen_nowrap : wrapInt P (len fds * 4) = 4 * len fds.
Proof.
  pose proof (len_nonneg fds). pow31.
  rewrite (wrapInt_small P HP) by (pow31; lia). lia.
Qed.

Lemma header_facts :
  Syscall.SizeofCmsghdr P <= hdrSpace P < Syscall.SizeofCmsghdr P + salign P
  /\ 8 <= Syscall.SizeofCmsghdr P <= 16
  /\ align (salign P) (hdrSpace P + 4 * len fds)
     = hdrSpace P + align (salign P) (4 * len fds)
  /\ 4 * len fds <= align (salign P) (4 * len fds) < 4 * len fds + salign P
  /\ Syscall.CmsgLen P 0 = hdrSpace P.
Proof.
  destruct (header_space P HP) as [q [Hq Hb]]. fold (hdrSpace P) in Hq.
  pose proof (salign_range P HP). pose proof (len_nonneg fds).
  assert (Hs : 8 <= Syscall.SizeofCmsghdr P <= 16)
    by (destruct (SizeofCmsghdr_cases P HP) as [-> | ->]; lia).
  split; [lia|]. split; [lia|]. split; [|split].
  - rewrite Hq. apply align_add_multiple. lia.
  - apply align_bounds. lia.
  - rewrite (CmsgLen_spec P HP) by (pow31; lia). unfold hdrSpace. lia.
Qed.

Lemma UnixRights_shape :
  Syscall.UnixRights P fds
  = (store P (lenBytes P) (hdrSpace P + 4 * len fds)
     ++ store P 4 (SOL_SOCKET P) ++ store P 4 SCM_RIGHTS)
    ++ zeros (hdrSpace P - Syscall.SizeofCmsghdr P)
    ++ rights_payload P fds
    ++ zeros (align (salign P) (4 * len fds) - 4 * len fds).
Proof.
  pose proof (len_nonneg fds).
  unfold Syscall.UnixRights. rewrite datalen_nowrap. pow31.
  rewrite (CmsgLen_spec P HP), (CmsgSpace_spec P HP) by (pow31; lia).
  fold (hdrSpace P). fold (rights_payload P fds). rewrite <- !app_assoc.
  do 5 f_equal. f_equal. lia.
Qed.

Lemma len_header :
  len (store P (lenBytes P) (hdrSpace P + 4 * len fds)
       ++ store P 4 (SOL_SOCKET P) ++ store P 4 SCM_RIGHTS)
  = Syscall.SizeofCmsghdr P.
Proof.
  rewrite !len_app. unfold len, Syscall.SizeofCmsghdr.
  rewrite !length_store. lia.
Qed.

Lemma len_rights_payload : len (rights_payload P fds) = 4 * len fds.
Proof. apply length_flat_store. Qed.

Lemma len_UnixRights :
  len (Syscall.UnixRights P fds)
  = hdrSpace P + align (salign P) (4 * len fds).
Proof.
  destruct header_facts as [Hh [Hs [_ [Ha _]]]].
  rewrite UnixRights_shape, len_app, len_header, !len_app, len_rights_payload.
  rewrite !length_zeros by lia. lia.
Qed.

Lemma readCmsghdr_UnixRights :
  Syscall.readCmsghdr P (Syscall.UnixRights P fds)
  = Syscall.Header (rights_message P fds).
Proof.
  pose proof (len_nonneg fds). destruct header_facts as [Hh [Hs _]].
  pose proof (salign_range P HP). pow31.
  unfold Syscall.readCmsghdr. rewrite UnixRights_shape.
  rewrite <- !app_assoc.
  rewrite (firstn_exact _ _ (lenBytes P)) by apply length_store.
  rewrite (skipn_exact _ _ (lenBytes P)) by apply length_store.
  rewrite (firstn_exact _ _ 4) by apply length_store.
  rewrite (app_assoc (store P (lenBytes P) _)).
  rewrite (skipn_exact _ _ (lenBytes P + 4))
    by (rewrite length_app, !length_store; reflexivity).
  rewrite (firstn_exact _ _ 4) by apply length_store.
  rewrite load_store, !load_int32_store.
  unfold rights_message. cbn [Syscall.Header]. f_equal.
  - assert (2 ^ 32 <= 2 ^ (Z.of_nat (lenBytes P) * 8)).
    { apply Z.pow_le_mono_r; [lia|].
      destruct (pf_len P HP) as [-> | ->]; simpl; lia. }
    change (2 ^ 32) with 4294967296 in *.
    apply Z.mod_small. lia.
  - apply int32_small. pose proof (pf_sol P HP). lia.
Qed.

Lemma slice_UnixRights :
  slice (Syscall.UnixRights P fds) (hdrSpace P) (hdrSpace P + 4 * len fds)
  = Done (rights_payload P fds).
Proof.
  pose proof (len_nonneg fds). destruct header_facts as [Hh [Hs [_ [Ha _]]]].
  pose proof len_header as Hl. pose proof len_rights_payload as Hd.
  unfold slice. rewrite len_UnixRights.
  replace ((0 <=? hdrSpace P) && (hdrSpace P <=? hdrSpace P + 4 * len fds)
           && (hdrSpace P + 4 * len fds
               <=? hdrSpace P + align (salign P) (4 * len fds)))
    with true
    by (symmetry; rewrite !andb_true_iff, !Z.leb_le; lia).
  f_equal. rewrite UnixRights_shape, app_assoc.
  rewrite (skipn_exact _ _ (Z.to_nat (hdrSpace P))).
  - apply firstn_exact. unfold len in *. lia.
  - rewrite length_app. unfold zeros. rewrite repeat_length.
    unfold len in *. lia.
Qed.

Lemma headerAndData_UnixRights :
  Syscall.socketControlMessageHeaderAndData P (Syscall.UnixRights P fds)
  = Done (Syscall.Header (rights_message P fds), rights_payload P fds, None).
Proof.
  pose proof (len_nonneg fds). destruct header_facts as [Hh [Hs [_ [Ha _]]]].
  unfold Syscall.socketControlMessageHeaderAndData.
  rewrite readCmsghdr_UnixRights.
  cbn [rights_message Syscall.Header Syscall.Len].
  rewrite len_UnixRights.
  replace ((hdrSpace P + 4 * len fds <? Syscall.SizeofCmsghdr P)
           || (hdrSpace P + align (salign P) (4 * len fds)
               <? hdrSpace P + 4 * len fds))
    with false
    by (symmetry; rewrite orb_false_iff, !Z.ltb_ge; lia).
  fold (hdrSpace P). rewrite slice_UnixRights. reflexivity.
Qed.

(** Decoding what [UnixRights] encoded yields the one message. *)
Lemma ParseSocketControlMessage_UnixRights :
  Syscall.ParseSocketControlMessage P (Syscall.UnixRights P fds)
  = Done ([rights_message P fds], None).
Proof.
  pose proof (len_nonneg fds).
  destruct header_facts as [Hh [Hs [Hal [Ha H0]]]].
  pose proof (salign_range P HP). pow31.
  assert (Hstop : (hdrSpace P + align (salign P) (4 * len fds) + hdrSpace P
                   <=? hdrSpace P + align (salign P) (4 * len fds)) = false)
    by (apply Z.leb_gt; lia).
  unfold Syscall.ParseSocketControlMessage.
  cbn [Syscall.parse_loop]. rewrite H0, len_UnixRights.
  replace (0 + hdrSpace P <=? hdrSpace P + align (salign P) (4 * len fds))
    with true by (symmetry; apply Z.leb_le; lia).
  change (skipn (Z.to_nat 0) (Syscall.UnixRights P fds))
    with (Syscall.UnixRights P fds).
  rewrite headerAndData_UnixRights.
  cbn [rights_message Syscall.Header Syscall.Len].
  rewrite (cmsgAlignOf_spec P HP) by (pow31; lia).
  rewrite Hal, Z.add_0_l.
  rewrite (wrapInt_small P HP) by (pow31; lia).
  destruct (length (Syscall.UnixRights P fds)); cbn [Syscall.parse_loop];
    rewrite H0, len_UnixRights, Hstop; reflexivity.
Qed.

(** Extracting from that message yields the descriptors, as int32. *)
Lemma ParseUnixRights_rights_message :
  Syscall.ParseUnixRights P (rights_message P fds) = Done (map int32 fds, None).
Proof.
  unfold Syscall.ParseUnixRights, rights_message.
  cbn [Syscall.Header Syscall.Level Syscall.Type_ Syscall.Data].
  rewrite !Z.eqb_refl. cbn [negb]. unfold rights_payload.
  rewrite (rights_loop_store P). reflexivity.
Qed.
End RoundTrip.

Lemma headerAndData_ok P b h d :
  Syscall.socketControlMessageHeaderAndData P b = Done (h, d, None) ->
  Syscall.SizeofCmsghdr P <= Syscall.Len h <= len b.
Proof.
  unfold Syscall.socketControlMessageHeaderAndData.
  destruct ((Syscall.Len (Syscall.readCmsghdr P b) <? Syscall.SizeofCmsghdr P)
            || (len b <? Syscall.Len (Syscall.readCmsghdr P b))) eqn:E;
    [discriminate|].
  apply orb_false_iff in E. destruct E as [E1 E2].
  apply Z.ltb_ge in E1, E2.
  destruct (slice b _ _); [|discriminate].
  intros Hd. inversion Hd; subst. lia.
Qed.

Lemma len_skipn {A} (l : list A) i :
  0 <= i <= len l -> len (skipn (Z.to_nat i) l) = len l - i.
Proof. intros H. unfold len in *. rewrite length_skipn. lia. Qed.

(** The loop of [ParseSocketControlMessage] ends before its fuel does:
    every round moves [i] forward by at least the size of a header. *)
Lemma parse_loop_total P (HP : platform_facts P) b :
  len b + 64 < 2 ^ 31 ->
  forall fuel i msgs,
    0 <= i -> len b - i < Z.of_nat fuel ->
    exists r, Syscall.parse_loop P fuel b i msgs = Some r.
Proof.
  intros Hb. pose proof (salign_range P HP) as Hs.
  assert (H0 : Syscall.CmsgLen P 0 = hdrSpace P).
  { rewrite (CmsgLen_spec P HP) by (pow31; lia). unfold hdrSpace. lia. }
  destruct (header_space P HP) as [q [Hq Hh]]. fold (hdrSpace P) in Hq.
  assert (Hz : 8 <= Syscall.SizeofCmsghdr P <= 16)
    by (destruct (SizeofCmsghdr_cases P HP) as [-> | ->]; lia).
  induction fuel as [|fuel IH]; intros i msgs Hi Hf.
  - simpl. rewrite H0.
    replace (i + hdrSpace P <=? len b) with false
      by (symmetry; apply Z.leb_gt; lia).
    eauto.
  - cbn [Syscall.parse_loop]. rewrite H0.
    destruct (i + hdrSpace P <=? len b) eqn:Hc; [|eauto].
    apply Z.leb_le in Hc.
    destruct (Syscall.socketControlMessageHeaderAndData P
                (skipn (Z.to_nat i) b)) as [[[h d] [e|]]|p] eqn:Hh'; eauto.
    apply headerAndData_ok in Hh'. rewrite len_skipn in Hh' by lia.
    pose proof (align_bounds (salign P) (Syscall.Len h) ltac:(lia)).
    pow31.
    rewrite (cmsgAlignOf_spec P HP) by (pow31; lia).
    rewrite (wrapInt_small P HP) by (pow31; lia).
    apply IH; lia.
Qed.

Lemma ParseSocketControlMessage_total P b :
  platform_ok P = true -> len b + 64 < 2 ^ 31 ->
  exists r, Syscall.parse_loop P (S (length b)) b 0 [] = Some r
            /\ Syscall.ParseSocketControlMessage P b = r.
Proof.
  intros HP Hb. apply platform_ok_facts in HP.
  destruct (parse_loop_total P HP b Hb (S (length b)) 0 [])
    as [r Hr]; [lia | unfold len; lia |].
  exists r. split; [assumption|].
  unfold Syscall.ParseSocketControlMessage. now rewrite Hr.
Qed.

Lemma map_Fd_handles_from filenames fds :
  Forall (fun fd => 0 <= fd) fds ->
  forall fi, map Fd (handles_from filenames fds fi) = fds.
Proof.
  induction 1 as [|fd rest Hfd _ IH]; intros fi; [reflexivity|].
  simpl. unfold new_file at 1.
  replace (fd <? 0) with false by (symmetry; apply Z.ltb_ge; lia).
  simpl. now rewrite IH.
Qed.

Lemma map_int32_small fds :
  Forall (fun fd => - 2 ^ 31 <= fd < 2 ^ 31) fds -> map int32 fds = fds.
Proof.
  induction 1 as [|fd rest Hfd _ IH]; [reflexivity|].
  simpl. now rewrite IH, int32_small.
Qed.

Lemma received_UnixRights P K via w d fds :
  platform_facts P ->
  fds <> [] ->
  4 * len fds + 64 < 2 ^ 31 ->
  4 * len fds + 64 <= maxAlloc P ->
  k_dup K (log w) via = Ok d ->
  k_recvmsg K (log w ++ [EvFile via; EvMakeBytes (Get_bufsize P (len fds))])
    d (Get_bufsize P (len fds)) = Ok (Syscall.UnixRights P fds) ->
  received P K via (len fds) w = Some (d, Syscall.UnixRights P fds).
Proof.
  intros HP Hne Hs Hm Hd Hr.
  pose proof (len_nonneg fds).
  assert (Hpos : 1 <= len fds).
  { unfold len. destruct fds; [congruence|]. simpl length. lia. }
  destruct (header_facts P HP fds) as [Hh [Hz [_ [Ha _]]]].
  pose proof (salign_range P HP).
  assert (Hn : Get_bufsize P (len fds) = len (Syscall.UnixRights P fds)).
  { unfold Get_bufsize. rewrite (datalen_nowrap P HP fds Hs).
    rewrite (CmsgSpace_spec P HP) by (pow31; lia).
    rewrite (len_UnixRights P HP fds Hs). reflexivity. }
  unfold received.
  replace (len fds <? 1) with false by (symmetry; apply Z.ltb_ge; lia).
  rewrite Hd. cbv zeta. rewrite Hr.
  assert (Hal : allocatable P (Get_bufsize P (len fds)) = true).
  { unfold allocatable. rewrite Hn, (len_UnixRights P HP fds Hs).
    apply andb_true_iff. rewrite !Z.leb_le. lia. }
  rewrite Hal. f_equal. f_equal.
  unfold overwrite, zeros. rewrite repeat_length, Hn.
  unfold len. rewrite Nat2Z.id, firstn_all.
  rewrite skipn_all2 by (rewrite repeat_length; lia).
  apply app_nil_r.
Qed.

(** C4. For every non-empty list of handles passed to one [Put] (their
    descriptors int32 values, their number small enough for the sizes to
    fit), the single message sent is [UnixRights] of the raw descriptors
    in the given order, and decoding it yields exactly one rights
    message carrying exactly these descriptors in this order. A [Get]
    with the same count whose receive is handed such a message, holding
    the descriptors [rfds] that the kernel installed position by
    position, returns a nil error and as many handles as were put, the
    i-th handle holding the i-th descriptor of the message. *)
Theorem Put_Get_round_trip
    P Ks Kr vias viar ws wr ds dr files rfds filenames :
  platform_ok P = true ->
  files <> [] ->
  4 * len files + 64 < 2 ^ 31 ->
  4 * len files + 64 <= maxAlloc P ->
  Forall (fun fd => - 2 ^ 31 <= fd < 2 ^ 31) (map Fd files) ->
  length rfds = length files ->
  Forall (fun fd => 0 <= fd < 2 ^ 31) rfds ->
  k_dup Ks (log ws) vias = Ok ds ->
  k_dup Kr (log wr) viar = Ok dr ->
  k_recvmsg Kr
    (log wr ++ [EvFile viar; EvMakeBytes (Get_bufsize P (len files))])
    dr (Get_bufsize P (len files)) = Ok (Syscall.UnixRights P rfds) ->
  (log (snd (Put P Ks vias files ws))
   = log ws ++ [EvFile vias;
                EvSendmsg ds (Syscall.UnixRights P (map Fd files));
                EvClose ds]
   /\ exists m,
       Syscall.ParseSocketControlMessage P
         (Syscall.UnixRights P (map Fd files)) = Done ([m], None)
       /\ Syscall.ParseUnixRights P m = Done (map Fd files, None))
  /\ exists res w',
      Get P Kr viar (len files) filenames wr = (Done (res, None), w')
      /\ map Fd res = rfds
      /\ length res = length files.
Proof.
  intros HP Hne Hs Hm Hsend Hlen Hrecv Hds Hdr Hk.
  apply platform_ok_facts in HP.
  assert (Hl : len rfds = len files) by (unfold len; now rewrite Hlen).
  split; [split|].
  - rewrite (Put_after_dup P Ks vias files ws ds Hne Hds).
    destruct (handles_read_frame files (borrowed vias ds ws)) as [_ [Hlg _]].
    unfold defer, Sendmsg, Close, record. simpl. rewrite Hlg. simpl.
    rewrite <- !app_assoc. reflexivity.
  - exists (rights_message P (map Fd files)).
    assert (Hs' : 4 * len (map Fd files) + 64 < 2 ^ 31)
      by (unfold len in *; now rewrite length_map).
    split.
    + apply (ParseSocketControlMessage_UnixRights P HP _ Hs').
    + rewrite (ParseUnixRights_rights_message P).
      now rewrite (map_int32_small _ Hsend).
  - assert (Hr : rfds <> []).
    { intros ->. destruct files; [congruence|discriminate]. }
    rewrite <- Hl in *.
    pose proof (received_UnixRights P Kr viar wr dr rfds HP Hr Hs Hm Hdr Hk)
      as Hrec.
    assert (Hex : extracts P [rights_message P rfds] [rfds]).
    { constructor; [|constructor].
      rewrite (ParseUnixRights_rights_message P).
      rewrite map_int32_small; [reflexivity|].
      eapply Forall_impl; [|exact Hrecv]. simpl. intros; lia. }
    destruct (Get_all_extracted P Kr viar (len rfds) filenames wr dr _ _ _
                Hrec (ParseSocketControlMessage_UnixRights P HP rfds Hs) Hex)
      as [w' Hw'].
    exists (handles_of filenames [rfds]), w'.
    split; [assumption|].
    unfold handles_of. simpl. rewrite app_nil_r. split.
    + apply map_Fd_handles_from.
      eapply Forall_impl; [|exact Hrecv]. simpl. intros; lia.
    + now rewrite length_handles_from.
Qed.

Lemma Put_Get_round_trip_witness :
  let a := Some {| file_fd := 4; file_name := "a" |} in
  let b := Some {| file_fd := 9; file_name := "b" |} in
  let c := Some {| file_fd := 6; file_name := "c" |} in
  let files := [a; b; c] in
  let rfds := [10; 11; 12] in
  let Ks := scripted (Ok 7) (Err EINVAL) None in
  let Kr := scripted (Ok 8) (Ok (Syscall.UnixRights linux_amd64 rfds)) None in
  (platform_ok linux_amd64 = true /\ files <> []
   /\ 4 * len files + 64 < 2 ^ 31
   /\ 4 * len files + 64 <= maxAlloc linux_amd64
   /\ Forall (fun fd => - 2 ^ 31 <= fd < 2 ^ 31) (map Fd files)
   /\ length rfds = length files
   /\ Forall (fun fd => 0 <= fd < 2 ^ 31) rfds)
  /\ exists res w',
      Get linux_amd64 Kr conn0 3 ["x"%string] world0 = (Done (res, None), w')
      /\ map Fd res = [10; 11; 12]
      /\ length res = 3%nat.
Proof.
  intros a b c files rfds Ks Kr.
  assert (H1 : platform_ok linux_amd64 = true) by reflexivity.
  assert (H2 : files <> []) by discriminate.
  assert (H3 : 4 * len files + 64 < 2 ^ 31) by (vm_compute; reflexivity).
  assert (H4 : 4 * len files + 64 <= maxAlloc linux_amd64)
    by (vm_compute; discriminate).
  assert (H5 : Forall (fun fd => - 2 ^ 31 <= fd < 2 ^ 31) (map Fd files))
    by (repeat constructor; vm_compute; discriminate).
  assert (H6 : length rfds = length files) by reflexivity.
  assert (H7 : Forall (fun fd => 0 <= fd < 2 ^ 31) rfds)
    by (repeat constructor; vm_compute; discriminate).
  split; [repeat split; assumption|].
  exact (proj2 (Put_Get_round_trip linux_amd64 Ks Kr conn0 conn0 world0 world0
                  7 8 files rfds ["x"%string]
                  H1 H2 H3 H4 H5 H6 H7 eq_refl eq_refl eq_refl)).
Defined.

(* ================================================================== *)
(** ** Further properties of [Get] and [Put] *)
(* ================================================================== *)

Lemma name_at_nth filenames i : name_at filenames i = nth i filenames EmptyString.
Proof.
  unfold name_at. destruct (i <? length filenames)%nat eqn:E; [reflexivity|].
  apply Nat.ltb_ge in E. symmetry. now apply nth_overflow.
Qed.

Lemma nth_handles_from filenames fds :
  forall fi i, (i < length fds)%nat ->
    nth i (handles_from filenames fds fi) None
    = new_file (nth i fds 0) (nth (fi + i) filenames EmptyString).
Proof.
  induction fds as [|fd rest IH]; intros fi i Hi; simpl in Hi; [lia|].
  destruct i as [|i]; simpl.
  - now rewrite name_at_nth, Nat.add_0_r.
  - rewrite IH by lia. do 2 f_equal. lia.
Qed.

(** When the received buffer holds a single rights message, the i-th
    handle returned is made of the i-th descriptor of the message and of
    [filenames[i]], or of the empty name where the names run out;
    surplus names are ignored, and a negative descriptor gives a nil
    handle in its place. *)
Theorem Get_single_message_handles
    P K via num filenames w d buf m fds :
  received P K via num w = Some (d, buf) ->
  Syscall.ParseSocketControlMessage P buf = Done ([m], None) ->
  Syscall.ParseUnixRights P m = Done (fds, None) ->
  exists res,
    fst (Get P K via num filenames w) = Done (res, None)
    /\ length res = length fds
    /\ forall i, (i < length fds)%nat ->
         (0 <= nth i fds 0 ->
          nth i res None
          = Some {| file_fd := nth i fds 0;
                    file_name := nth i filenames EmptyString |})
         /\ (nth i fds 0 < 0 -> nth i res None = None).
Proof.
  intros Hr Hp Hm.
  assert (He : extracts P [m] [fds]) by (repeat constructor; assumption).
  exists (handles_from filenames fds 0). split; [|split].
  - rewrite (Get_names_by_message P K via num filenames w d buf [m] [fds]
               Hr Hp He).
    unfold handles_of. simpl. now rewrite app_nil_r.
  - apply length_handles_from.
  - intros i Hi. rewrite (nth_handles_from filenames fds 0 i Hi). simpl.
    unfold new_file. split; intros Hfd.
    + now replace (nth i fds 0 <? 0) with false
        by (symmetry; apply Z.ltb_ge; lia).
    + now replace (nth i fds 0 <? 0) with true
        by (symmetry; apply Z.ltb_lt; lia).
Qed.

Lemma Get_single_message_handles_witness :
  let buf := Syscall.UnixRights linux_amd64 [5; -1; 6] in
  let K := scripted (Ok 7) (Ok buf) None in
  let m := {| Syscall.Header :=
                {| Syscall.Len := 28; Syscall.Level := 1; Syscall.Type_ := 1 |};
              Syscall.Data := le_split 4 5 ++ le_split 4 (-1) ++ le_split 4 6 |} in
  (received linux_amd64 K conn0 3 world0 = Some (7, buf)
   /\ Syscall.ParseSocketControlMessage linux_amd64 buf = Done ([m], None)
   /\ Syscall.ParseUnixRights linux_amd64 m = Done ([5; -1; 6], None))
  /\ exists res,
      fst (Get linux_amd64 K conn0 3 ["first"%string] world0) = Done (res, None)
      /\ length res = 3%nat
      /\ forall i, (i < 3)%nat ->
           (0 <= nth i [5; -1; 6] 0 ->
            nth i res None
            = Some {| file_fd := nth i [5; -1; 6] 0;
                      file_name := nth i ["first"%string] EmptyString |})
           /\ (nth i [5; -1; 6] 0 < 0 -> nth i res None = None).
Proof.
  intros buf K m.
  assert (H1 : received linux_amd64 K conn0 3 world0 = Some (7, buf))
    by (vm_compute; reflexivity).
  assert (H2 : Syscall.ParseSocketControlMessage linux_amd64 buf
               = Done ([m], None)) by (vm_compute; reflexivity).
  assert (H3 : Syscall.ParseUnixRights linux_amd64 m = Done ([5; -1; 6], None))
    by (vm_compute; reflexivity).
  split; [auto|].
  exact (Get_single_message_handles linux_amd64 K conn0 3 ["first"%string]
           world0 7 buf m [5; -1; 6] H1 H2 H3).
Defined.

(** A count whose buffer size [make] refuses (negative after the
    overflow of [num*4], or beyond the largest allocation): [Get]
    panics once it holds the duplicate; no receive is issued, and the
    deferred close still releases the duplicate. *)
Theorem Get_unallocatable_count_panics P K via num filenames w d :
  1 <= num ->
  k_dup K (log w) via = Ok d ->
  allocatable P (Get_bufsize P num) = false ->
  Get P K via num filenames w
  = (Panics makeslice_len_out_of_range,
     {| open_fds := remove Z.eq_dec d (d :: open_fds w);
        log := log w ++ [EvFile via; EvClose d];
        ofd := forget d (ofd (borrowed via d w));
        nonblock := nonblock (borrowed via d w) |}).
Proof.
  intros Hnum Hd Ha.
  rewrite (Get_after_dup P K via num filenames w d Hnum Hd).
  assert (Hmk : (Get_bufsize P num <? 0)
                || (maxAlloc P <? Get_bufsize P num) = true).
  { unfold allocatable in Ha. apply andb_false_iff in Ha.
    apply orb_true_iff. destruct Ha as [Ha | Ha]; [left | right].
    - apply Z.leb_gt in Ha. now apply Z.ltb_lt.
    - apply Z.leb_gt in Ha. now apply Z.ltb_lt. }
  unfold defer, bind at 1, make_bytes. rewrite Hmk.
  unfold Close. simpl. rewrite <- app_assoc. reflexivity.
Qed.

Lemma Get_unallocatable_count_panics_witness :
  let K := scripted (Ok 7) (Ok []) None in
  (1 <= 2 ^ 61 /\ k_dup K (log world0) conn0 = Ok 7
   /\ allocatable linux_amd64 (Get_bufsize linux_amd64 (2 ^ 61)) = false)
  /\ Get linux_amd64 K conn0 (2 ^ 61) [] world0
     = (Panics makeslice_len_out_of_range,
        {| open_fds := remove Z.eq_dec 7 (7 :: open_fds world0);
           log := log world0 ++ [EvFile conn0; EvClose 7];
           ofd := forget 7 (ofd (borrowed conn0 7 world0));
           nonblock := nonblock (borrowed conn0 7 world0) |}).
Proof.
  intros K.
  assert (H1 : 1 <= 2 ^ 61) by (vm_compute; discriminate).
  assert (H2 : k_dup K (log world0) conn0 = Ok 7) by reflexivity.
  assert (H3 : allocatable linux_amd64 (Get_bufsize linux_amd64 (2 ^ 61))
               = false) by (vm_compute; reflexivity).
  split; [auto|].
  exact (Get_unallocatable_count_panics linux_amd64 K conn0 (2 ^ 61) []
           world0 7 H1 H2 H3).
Defined.

(** When the decoding of the buffer returns an error, wherever in the
    buffer it arose, [Get] returns that error with an empty handle set:
    no handle is made, not even for messages that lay intact before the
    point of failure; the duplicate is closed. *)
Theorem Get_decode_error_makes_no_handle
    P K via num filenames w d buf msgs e :
  received P K via num w = Some (d, buf) ->
  Syscall.ParseSocketControlMessage P buf = Done (msgs, Some e) ->
  Get P K via num filenames w
  = (Done ([], Some e),
     {| open_fds := remove Z.eq_dec d (d :: open_fds w);
        log := log w ++ [EvFile via; EvMakeBytes (Get_bufsize P num);
                         EvRecvmsg d (Get_bufsize P num); EvClose d];
        ofd := forget d (ofd (borrowed via d w));
        nonblock := nonblock (borrowed via d w) |}).
Proof.
  intros Hr Hp. rewrite (Get_received _ _ _ _ filenames _ _ _ Hr).
  unfold defer, bind, lift. rewrite Hp.
  destruct msgs; simpl; rewrite <- app_assoc; reflexivity.
Qed.

Lemma Get_decode_error_makes_no_handle_witness :
  let msg := Syscall.UnixRights linux_amd64 [5] in
  let K := scripted (Ok 7) (Ok msg) None in
  (received linux_amd64 K conn0 5 world0 = Some (7, msg ++ zeros 16)
   /\ Syscall.ParseSocketControlMessage linux_amd64 (msg ++ zeros 16)
      = Done ([], Some EINVAL))
  /\ Get linux_amd64 K conn0 5 [] world0
     = (Done ([], Some EINVAL),
        {| open_fds := remove Z.eq_dec 7 (7 :: open_fds world0);
           log := log world0 ++ [EvFile conn0; EvMakeBytes 40;
                                 EvRecvmsg 7 40; EvClose 7];
           ofd := forget 7 (ofd (borrowed conn0 7 world0));
           nonblock := nonblock (borrowed conn0 7 world0) |}).
Proof.
  intros msg K.
  assert (H1 : received linux_amd64 K conn0 5 world0
               = Some (7, msg ++ zeros 16)) by (vm_compute; reflexivity).
  assert (H2 : Syscall.ParseSocketControlMessage linux_amd64 (msg ++ zeros 16)
               = Done ([], Some EINVAL)) by (vm_compute; reflexivity).
  split; [auto|].
  exact (Get_decode_error_makes_no_handle linux_amd64 K conn0 5 [] world0 7
           (msg ++ zeros 16) [] EINVAL H1 H2).
Defined.

(** When the extraction panics on a message that follows messages
    already extracted, [Get] panics too: the handles of the earlier
    messages have been made by then, but no result reaches the caller;
    the duplicate is closed all the same. *)
Theorem Get_panic_after_handles_made
    P K via num filenames w d buf pre m post fdss p :
  received P K via num w = Some (d, buf) ->
  Syscall.ParseSocketControlMessage P buf = Done (pre ++ m :: post, None) ->
  extracts P pre fdss ->
  Syscall.ParseUnixRights P m = Panics p ->
  Get P K via num filenames w
  = (Panics p,
     {| open_fds := remove Z.eq_dec d (d :: open_fds w);
        log := log w ++ [EvFile via; EvMakeBytes (Get_bufsize P num);
                         EvRecvmsg d (Get_bufsize P num)]
                     ++ newfile_events (handles_of filenames fdss)
                     ++ [EvClose d];
        ofd := forget d (ofd (borrowed via d w));
        nonblock := nonblock (borrowed via d w) |}).
Proof.
  intros Hr Hp He Hm. rewrite (Get_received _ _ _ _ filenames _ _ _ Hr).
  unfold defer, bind, lift. rewrite Hp.
  rewrite (msgs_loop_prefix _ _ _ _ He).
  rewrite (msgs_loop_panic _ _ _ _ _ _ _ Hm). simpl.
  rewrite <- !app_assoc. reflexivity.
Qed.

Lemma Get_panic_after_handles_made_witness :
  let written := Syscall.UnixRights linux_amd64 [5] ++ ragged_rights_amd64 in
  let buf := written ++ zeros 3 in
  let K := scripted (Ok 7) (Ok written) None in
  let m1 := {| Syscall.Header :=
                 {| Syscall.Len := 20; Syscall.Level := 1; Syscall.Type_ := 1 |};
               Syscall.Data := le_split 4 5 |} in
  let m2 := {| Syscall.Header :=
                 {| Syscall.Len := 21; Syscall.Level := 1; Syscall.Type_ := 1 |};
               Syscall.Data := le_split 5 5 |} in
  (received linux_amd64 K conn0 7 world0 = Some (7, buf)
   /\ Syscall.ParseSocketControlMessage linux_amd64 buf
      = Done ([m1] ++ m2 :: [], None)
   /\ extracts linux_amd64 [m1] [[5]]
   /\ Syscall.ParseUnixRights linux_amd64 m2 = Panics index_out_of_range)
  /\ Get linux_amd64 K conn0 7 [] world0
     = (Panics index_out_of_range,
        {| open_fds := [3];
           log := [EvFile conn0; EvMakeBytes 48; EvRecvmsg 7 48;
                   EvNewFile 5 ""; EvClose 7];
           ofd := []; nonblock := [] |}).
Proof.
  intros written buf K m1 m2.
  assert (H1 : received linux_amd64 K conn0 7 world0 = Some (7, buf))
    by (vm_compute; reflexivity).
  assert (H2 : Syscall.ParseSocketControlMessage linux_amd64 buf
               = Done ([m1] ++ m2 :: [], None)) by (vm_compute; reflexivity).
  assert (H3 : extracts linux_amd64 [m1] [[5]]) by (repeat constructor).
  assert (H4 : Syscall.ParseUnixRights linux_amd64 m2
               = Panics index_out_of_range) by reflexivity.
  split; [auto|].
  exact (Get_panic_after_handles_made linux_amd64 K conn0 7 [] world0 7 buf
           [m1] m2 [] [[5]] index_out_of_range H1 H2 H3 H4).
Defined.

(* ------------------------------------------------------------------ *)
(** *** A message shorter than the buffer *)

Lemma firstn_repeat_min {A} (a : A) n k :
  firstn k (repeat a n) = repeat a (Nat.min k n).
Proof.
  revert n. induction k as [|k IH]; intros [|n]; simpl; try reflexivity.
  now rewrite IH.
Qed.

Lemma skipn_repeat_sub {A} (a : A) n k :
  skipn k (repeat a n) = repeat a (n - k).
Proof.
  revert n. induction k as [|k IH]; intros [|n]; simpl; try reflexivity.
  apply IH.
Qed.

Lemma le_combine_repeat_zero n : le_combine (repeat Byte.x00 n) = 0.
Proof. apply le_combine_0. Qed.

Lemma load_zeros P n : load P (repeat Byte.x00 n) = 0.
Proof.
  unfold load. destruct (bigEndian P); rewrite ?rev_repeat;
    apply le_combine_repeat_zero.
Qed.

(** A header of zero bytes is refused. *)
Lemma headerAndData_zeros P s :
  exists h, Syscall.socketControlMessageHeaderAndData P (zeros s)
            = Done (h, [], Some EINVAL).
Proof.
  unfold Syscall.socketControlMessageHeaderAndData.
  assert (HL : Syscall.Len (Syscall.readCmsghdr P (zeros s)) = 0).
  { unfold Syscall.readCmsghdr, zeros. cbn [Syscall.Len].
    rewrite firstn_repeat_min. apply load_zeros. }
  rewrite HL.
  assert (Hs : (0 <? Syscall.SizeofCmsghdr P) = true)
    by (apply Z.ltb_lt; unfold Syscall.SizeofCmsghdr; lia).
  rewrite Hs. simpl. eauto.
Qed.

Lemma firstn_app_short {A} (l t : list A) k :
  (k <= length l)%nat -> firstn k (l ++ t) = firstn k l.
Proof.
  intros H. rewrite firstn_app.
  replace (k - length l)%nat with 0%nat by lia. simpl. apply app_nil_r.
Qed.

Lemma skipn_app_short {A} (l t : list A) k :
  (k <= length l)%nat -> skipn k (l ++ t) = skipn k l ++ t.
Proof.
  intros H. rewrite skipn_app.
  replace (k - length l)%nat with 0%nat by lia. reflexivity.
Qed.

(** Bytes behind a message do not change how its header and payload
    are read. *)
Lemma headerAndData_app P b t h dbuf :
  Syscall.SizeofCmsghdr P <= len b ->
  Syscall.socketControlMessageHeaderAndData P b = Done (h, dbuf, None) ->
  Syscall.socketControlMessageHeaderAndData P (b ++ t) = Done (h, dbuf, None).
Proof.
  intros Hb. unfold Syscall.socketControlMessageHeaderAndData.
  assert (Hr : Syscall.readCmsghdr P (b ++ t) = Syscall.readCmsghdr P b).
  { unfold Syscall.readCmsghdr, Syscall.SizeofCmsghdr, len in *.
    rewrite !firstn_app_short, !skipn_app_short by lia.
    rewrite !firstn_app_short by (rewrite length_skipn; lia).
    reflexivity. }
  rewrite Hr.
  destruct ((Syscall.Len (Syscall.readCmsghdr P b) <? Syscall.SizeofCmsghdr P)
            || (len b <? Syscall.Len (Syscall.readCmsghdr P b))) eqn:E;
    [discriminate|].
  apply orb_false_iff in E. destruct E as [E1 E2].
  apply Z.ltb_ge in E1, E2.
  pose proof (len_nonneg t) as Ht.
  replace ((Syscall.Len (Syscall.readCmsghdr P b) <? Syscall.SizeofCmsghdr P)
           || (len (b ++ t) <? Syscall.Len (Syscall.readCmsghdr P b)))
    with false
    by (symmetry; apply orb_false_iff; rewrite len_app, !Z.ltb_ge; lia).
  unfold slice. rewrite len_app.
  destruct ((0 <=? Syscall.cmsgAlignOf P (Syscall.SizeofCmsghdr P))
            && (Syscall.cmsgAlignOf P (Syscall.SizeofCmsghdr P)
                <=? Syscall.Len (Syscall.readCmsghdr P b))
            && (Syscall.Len (Syscall.readCmsghdr P b) <=? len b)) eqn:Es;
    [|discriminate].
  apply andb_prop in Es. destruct Es as [Es E3].
  apply andb_prop in Es. destruct Es as [E4 E5].
  rewrite E4, E5. apply Z.leb_le in E3, E4, E5.
  replace (Syscall.Len (Syscall.readCmsghdr P b) <=? len b + len t) with true
    by (symmetry; apply Z.leb_le; lia).
  cbn [andb]. unfold len in *.
  rewrite skipn_app_short by lia.
  rewrite firstn_app_short by (rewrite length_skipn; lia).
  trivial.
Qed.

Lemma align_mono a x y : 0 < a -> x <= y -> align a x <= align a y.
Proof.
  intros Ha Hxy. unfold align.
  apply Z.mul_le_mono_nonneg_l; [lia|]. apply Z.div_le_mono; lia.
Qed.

(** Decoding a buffer that holds one encoded rights message and [s]
    zero bytes behind it: the zeros pass for padding while they are
    fewer than a header's space, and are refused as a header from then
    on. *)
Lemma ParseSocketControlMessage_padded P (HP : platform_facts P) fds s :
  0 <= s -> 4 * len fds + 64 < 2 ^ 31 ->
  Syscall.ParseSocketControlMessage P (Syscall.UnixRights P fds ++ zeros s)
  = if s <? hdrSpace P then Done ([rights_message P fds], None)
    else Done ([], Some EINVAL).
Proof.
  intros Hs Hsm. pose proof (len_nonneg fds).
  destruct (header_facts P HP fds) as [Hh [Hz [Hal [Ha H0]]]].
  pose proof (salign_range P HP). pow31.
  assert (HL := len_UnixRights P HP fds Hsm).
  unfold Syscall.ParseSocketControlMessage.
  assert (Hlen : len (Syscall.UnixRights P fds ++ zeros s)
                 = hdrSpace P + align (salign P) (4 * len fds) + s)
    by (rewrite len_app, HL, length_zeros by lia; reflexivity).
  destruct (length (Syscall.UnixRights P fds ++ zeros s)) as [|n] eqn:En.
  { unfold len in *. rewrite En in Hlen. lia. }
  cbn [Syscall.parse_loop]. rewrite H0, Hlen.
  replace (0 + hdrSpace P
           <=? hdrSpace P + align (salign P) (4 * len fds) + s)
    with true by (symmetry; apply Z.leb_le; lia).
  change (skipn (Z.to_nat 0) (Syscall.UnixRights P fds ++ zeros s))
    with (Syscall.UnixRights P fds ++ zeros s).
  assert (Hb : Syscall.SizeofCmsghdr P <= len (Syscall.UnixRights P fds))
    by lia.
  rewrite (headerAndData_app P _ (zeros s) _ _ Hb
             (headerAndData_UnixRights P HP fds Hsm)).
  cbn [rights_message Syscall.Header Syscall.Len].
  rewrite (cmsgAlignOf_spec P HP) by (pow31; lia).
  rewrite Hal, Z.add_0_l.
  rewrite (wrapInt_small P HP) by (pow31; lia).
  destruct (s <? hdrSpace P) eqn:Ec.
  - apply Z.ltb_lt in Ec.
    destruct n; cbn [Syscall.parse_loop]; rewrite H0, Hlen.
    all: replace (hdrSpace P + align (salign P) (4 * len fds) + hdrSpace P
                  <=? hdrSpace P + align (salign P) (4 * len fds) + s)
           with false by (symmetry; apply Z.leb_gt; lia).
    all: reflexivity.
  - apply Z.ltb_ge in Ec.
    destruct n as [|n].
    { unfold len in *. lia. }
    cbn [Syscall.parse_loop]. rewrite H0, Hlen.
    replace (hdrSpace P + align (salign P) (4 * len fds) + hdrSpace P
             <=? hdrSpace P + align (salign P) (4 * len fds) + s)
      with true by (symmetry; apply Z.leb_le; lia).
    rewrite <- HL. unfold len. rewrite Nat2Z.id.
    rewrite (skipn_exact _ _ _ eq_refl).
    destruct (headerAndData_zeros P s) as [h Hh0]. rewrite Hh0.
    reflexivity.
Qed.

Lemma Get_bufsize_spec P (HP : platform_facts P) num :
  0 <= num -> 4 * num + 64 < 2 ^ 31 ->
  Get_bufsize P num = hdrSpace P + align (salign P) (4 * num).
Proof.
  intros Hn Hs. unfold Get_bufsize. pow31.
  rewrite (wrapInt_small P HP) by (pow31; lia).
  rewrite (CmsgSpace_spec P HP) by (pow31; lia).
  unfold hdrSpace. do 2 f_equal. lia.
Qed.

(** The buffer [Get] is left with when the kernel delivers one encoded
    rights message that fits the allocation: the message, then the zero
    bytes of the allocation it did not reach. *)
Lemma received_fitting P K via num w d fds :
  platform_facts P ->
  1 <= num ->
  4 * num + 64 < 2 ^ 31 -> 4 * num + 64 <= maxAlloc P ->
  len (Syscall.UnixRights P fds) <= Get_bufsize P num ->
  k_dup K (log w) via = Ok d ->
  k_recvmsg K (log w ++ [EvFile via; EvMakeBytes (Get_bufsize P num)])
    d (Get_bufsize P num) = Ok (Syscall.UnixRights P fds) ->
  received P K via num w
  = Some (d, Syscall.UnixRights P fds
             ++ zeros (Get_bufsize P num - len (Syscall.UnixRights P fds))).
Proof.
  intros HP Hnum Hs Hm Hfit Hd Hr.
  pose proof (len_nonneg (Syscall.UnixRights P fds)).
  pose proof (salign_range P HP).
  destruct (header_facts P HP fds) as [Hh [Hz _]].
  pose proof (align_bounds (salign P) (4 * num) ltac:(lia)) as Hb.
  assert (HN := Get_bufsize_spec P HP num ltac:(lia) Hs).
  unfold received.
  replace (num <? 1) with false by (symmetry; apply Z.ltb_ge; lia).
  rewrite Hd. cbv zeta. rewrite Hr.
  assert (Hal : allocatable P (Get_bufsize P num) = true).
  { unfold allocatable. apply andb_true_iff. rewrite !Z.leb_le. lia. }
  rewrite Hal. do 3 f_equal.
  unfold overwrite, zeros. rewrite repeat_length.
  rewrite firstn_all2 by (unfold len in *; lia).
  rewrite skipn_repeat_sub. do 2 f_equal. unfold len in *. lia.
Qed.

(** [Get(num)] handed one rights message that fits its buffer, whether
    it carries fewer descriptors than [num], as many, or (within the
    padding) more: what [Get] returns is decided by the room left over.
    While fewer bytes than [CmsgLen(0)] are left, [Get] returns one
    handle per descriptor, in order; from [CmsgLen(0)] left-over bytes
    on, the zero bytes behind the message are decoded as a header and
    [Get] returns [EINVAL] and no handle. *)
Theorem Get_message_that_fits P K via num filenames w d fds :
  platform_ok P = true ->
  1 <= num ->
  4 * num + 64 < 2 ^ 31 -> 4 * num + 64 <= maxAlloc P ->
  4 * len fds + 64 < 2 ^ 31 ->
  len (Syscall.UnixRights P fds) <= Get_bufsize P num ->
  k_dup K (log w) via = Ok d ->
  k_recvmsg K (log w ++ [EvFile via; EvMakeBytes (Get_bufsize P num)])
    d (Get_bufsize P num) = Ok (Syscall.UnixRights P fds) ->
  fst (Get P K via num filenames w)
  = if Get_bufsize P num - len (Syscall.UnixRights P fds)
       <? Syscall.CmsgLen P 0
    then Done (handles_from filenames (map int32 fds) 0, None)
    else Done ([], Some EINVAL).
Proof.
  intros HP Hnum Hs Hm Hsf Hfit Hd Hr. apply platform_ok_facts in HP.
  pose proof (received_fitting P K via num w d fds HP Hnum Hs Hm Hfit Hd Hr)
    as Hrec.
  destruct (header_facts P HP fds) as [_ [_ [_ [_ Hc0]]]].
  set (s := Get_bufsize P num - len (Syscall.UnixRights P fds)) in *.
  assert (Hp := ParseSocketControlMessage_padded P HP fds s ltac:(lia) Hsf).
  rewrite Hc0. destruct (s <? hdrSpace P).
  - assert (He : extracts P [rights_message P fds] [map int32 fds]).
    { constructor; [|constructor].
      apply (ParseUnixRights_rights_message P). }
    rewrite (Get_names_by_message P K via num filenames w d _ _ _
               Hrec Hp He).
    unfold handles_of. simpl. now rewrite app_nil_r.
  - rewrite (Get_received _ _ _ _ filenames _ _ _ Hrec).
    unfold defer, bind, lift. rewrite Hp. reflexivity.
Qed.

Lemma Get_message_that_fits_witness :
  let K := scripted (Ok 7) (Ok (Syscall.UnixRights linux_amd64 [5; 6])) None in
  (platform_ok linux_amd64 = true /\ 1 <= 1
   /\ 4 * 1 + 64 < 2 ^ 31 /\ 4 * 1 + 64 <= maxAlloc linux_amd64
   /\ 4 * len [5; 6] + 64 < 2 ^ 31
   /\ len (Syscall.UnixRights linux_amd64 [5; 6]) <= Get_bufsize linux_amd64 1)
  /\ fst (Get linux_amd64 K conn0 1 [] world0)
     = if Get_bufsize linux_amd64 1
          - len (Syscall.UnixRights linux_amd64 [5; 6])
          <? Syscall.CmsgLen linux_amd64 0
       then Done (handles_from [] (map int32 [5; 6]) 0, None)
       else Done ([], Some EINVAL).
Proof.
  intros K.
  assert (H1 : platform_ok linux_amd64 = true) by reflexivity.
  assert (H2 : 1 <= 1) by lia.
  assert (H3 : 4 * 1 + 64 < 2 ^ 31) by (vm_compute; reflexivity).
  assert (H4 : 4 * 1 + 64 <= maxAlloc linux_amd64)
    by (vm_compute; discriminate).
  assert (H5 : 4 * len [5; 6] + 64 < 2 ^ 31) by (vm_compute; reflexivity).
  assert (H6 : len (Syscall.UnixRights linux_amd64 [5; 6])
               <= Get_bufsize linux_amd64 1) by (vm_compute; discriminate).
  split; [repeat split; assumption|].
  exact (Get_message_that_fits linux_amd64 K conn0 1 [] world0 7 [5; 6]
           H1 H2 H3 H4 H5 H6 eq_refl eq_refl).
Defined.

Lemma ParseSocketControlMessage_zeros P (HP : platform_facts P) n :
  hdrSpace P <= n ->
  Syscall.ParseSocketControlMessage P (zeros n) = Done ([], Some EINVAL).
Proof.
  intros Hn. destruct (header_facts P HP []) as [Hh [Hz [_ [_ Hc0]]]].
  assert (Hl : len (zeros n) = n) by (apply length_zeros; lia).
  unfold Syscall.ParseSocketControlMessage.
  cbn [Syscall.parse_loop]. rewrite Hc0, Hl.
  replace (0 + hdrSpace P <=? n) with true by (symmetry; apply Z.leb_le; lia).
  change (skipn (Z.to_nat 0) (zeros n)) with (zeros n).
  destruct (headerAndData_zeros P n) as [h Hh0]. rewrite Hh0. reflexivity.
Qed.

(** A receive that succeeds without any control data (a peer that sent
    plain bytes, or nothing to pass) is no empty result: the untouched,
    zeroed buffer is decoded as a header of length 0, and [Get] returns
    [EINVAL] with no handle. *)
Theorem Get_without_control_data P K via num filenames w d :
  platform_ok P = true ->
  1 <= num ->
  4 * num + 64 < 2 ^ 31 -> 4 * num + 64 <= maxAlloc P ->
  k_dup K (log w) via = Ok d ->
  k_recvmsg K (log w ++ [EvFile via; EvMakeBytes (Get_bufsize P num)])
    d (Get_bufsize P num) = Ok [] ->
  fst (Get P K via num filenames w) = Done ([], Some EINVAL)
  /\ log (snd (Get P K via num filenames w))
     = log w ++ [EvFile via; EvMakeBytes (Get_bufsize P num);
                 EvRecvmsg d (Get_bufsize P num); EvClose d].
Proof.
  intros HP Hnum Hs Hm Hd Hr. apply platform_ok_facts in HP.
  pose proof (salign_range P HP).
  destruct (header_facts P HP []) as [Hh [Hz _]].
  pose proof (align_bounds (salign P) (4 * num) ltac:(lia)) as Hb.
  assert (HN := Get_bufsize_spec P HP num ltac:(lia) Hs).
  assert (Hrec : received P K via num w = Some (d, zeros (Get_bufsize P num))).
  { unfold received.
    replace (num <? 1) with false by (symmetry; apply Z.ltb_ge; lia).
    rewrite Hd. cbv zeta. rewrite Hr.
    assert (Hal : allocatable P (Get_bufsize P num) = true).
    { unfold allocatable. apply andb_true_iff. rewrite !Z.leb_le. lia. }
    rewrite Hal. unfold overwrite. rewrite firstn_nil. reflexivity. }
  rewrite (Get_received _ _ _ _ filenames _ _ _ Hrec).
  unfold defer, bind, lift.
  rewrite (ParseSocketControlMessage_zeros P HP) by lia.
  simpl. rewrite <- app_assoc. split; reflexivity.
Qed.

Lemma Get_without_control_data_witness :
  let K := scripted (Ok 7) (Ok []) None in
  (platform_ok darwin_amd64 = true /\ 1 <= 1
   /\ 4 * 1 + 64 < 2 ^ 31 /\ 4 * 1 + 64 <= maxAlloc darwin_amd64)
  /\ fst (Get darwin_amd64 K conn0 1 [] world0) = Done ([], Some EINVAL)
  /\ log (snd (Get darwin_amd64 K conn0 1 [] world0))
     = log world0 ++ [EvFile conn0; EvMakeBytes (Get_bufsize darwin_amd64 1);
                      EvRecvmsg 7 (Get_bufsize darwin_amd64 1); EvClose 7].
Proof.
  intros K.
  assert (H1 : platform_ok darwin_amd64 = true) by reflexivity.
  assert (H2 : 1 <= 1) by lia.
  assert (H3 : 4 * 1 + 64 < 2 ^ 31) by (vm_compute; reflexivity).
  assert (H4 : 4 * 1 + 64 <= maxAlloc darwin_amd64)
    by (vm_compute; discriminate).
  split; [repeat split; assumption|].
  exact (Get_without_control_data darwin_amd64 K conn0 1 [] world0 7
           H1 H2 H3 H4 eq_refl eq_refl).
Defined.

(* ------------------------------------------------------------------ *)
(** *** The message [Put] sends *)

Lemma Put_log P K via files w d :
  files <> [] -> k_dup K (log w) via = Ok d ->
  log (snd (Put P K via files w))
  = log w ++ [EvFile via;
              EvSendmsg d (Syscall.UnixRights P (map Fd files));
              EvClose d].
Proof.
  intros Hf Hd. rewrite (Put_after_dup P K via files w d Hf Hd).
  destruct (handles_read_frame files (borrowed via d w)) as [_ [Hlg _]].
  unfold defer, Sendmsg, Close, record. simpl. rewrite Hlg. simpl.
  rewrite <- !app_assoc. reflexivity.
Qed.

Lemma len_map {A B} (f : A -> B) (l : list A) : len (map f l) = len l.
Proof. unfold len. now rewrite length_map. Qed.

(** The message [Put] sends for its handles takes the space of the
    header and of four bytes per handle, rounded up to the alignment;
    it fits the buffer of every [Get(num)] with [num] at least the
    number of handles, and fills the buffer exactly when [num] is that
    number. *)
Theorem Put_message_fits_Get_buffer P K via files w d num :
  platform_ok P = true ->
  files <> [] -> len files <= num -> 4 * num + 64 < 2 ^ 31 ->
  k_dup K (log w) via = Ok d ->
  exists rights,
    log (snd (Put P K via files w))
    = log w ++ [EvFile via; EvSendmsg d rights; EvClose d]
    /\ Syscall.CmsgLen P (4 * len files) <= len rights
       < Syscall.CmsgLen P (4 * len files) + salign P
    /\ len rights <= Get_bufsize P num
    /\ (len files = num -> len rights = Get_bufsize P num).
Proof.
  intros HP Hf Hle Hs Hd. apply platform_ok_facts in HP.
  exists (Syscall.UnixRights P (map Fd files)).
  split; [apply (Put_log P K via files w d Hf Hd)|].
  pose proof (len_nonneg files). pose proof (salign_range P HP).
  assert (Hsf : 4 * len (map Fd files) + 64 < 2 ^ 31)
    by (rewrite len_map; lia).
  rewrite (len_UnixRights P HP _ Hsf), len_map.
  rewrite (Get_bufsize_spec P HP num) by lia.
  pow31. rewrite (CmsgLen_spec P HP) by (pow31; lia).
  fold (hdrSpace P).
  pose proof (align_bounds (salign P) (4 * len files) ltac:(lia)).
  pose proof (align_mono (salign P) (4 * len files) (4 * num) ltac:(lia)
                ltac:(lia)).
  split; [lia|]. split; [lia|]. intros ->. reflexivity.
Qed.

Lemma Put_message_fits_Get_buffer_witness :
  let K := scripted (Ok 7) (Err EINVAL) None in
  let files := [Some {| file_fd := 4; file_name := "a" |};
                Some {| file_fd := 9; file_name := "b" |};
                Some {| file_fd := 6; file_name := "c" |}] in
  (platform_ok linux_386 = true /\ files <> [] /\ len files <= 3
   /\ 4 * 3 + 64 < 2 ^ 31)
  /\ exists rights,
      log (snd (Put linux_386 K conn0 files world0))
      = log world0 ++ [EvFile conn0; EvSendmsg 7 rights; EvClose 7]
      /\ Syscall.CmsgLen linux_386 (4 * len files) <= len rights
         < Syscall.CmsgLen linux_386 (4 * len files) + salign linux_386
      /\ len rights <= Get_bufsize linux_386 3
      /\ (len files = 3 -> len rights = Get_bufsize linux_386 3).
Proof.
  intros K files.
  assert (H1 : platform_ok linux_386 = true) by reflexivity.
  assert (H2 : files <> []) by discriminate.
  assert (H3 : len files <= 3) by (vm_compute; discriminate).
  assert (H4 : 4 * 3 + 64 < 2 ^ 31) by (vm_compute; reflexivity).
  split; [auto|].
  exact (Put_message_fits_Get_buffer linux_386 K conn0 files world0 7 3
           H1 H2 H3 H4 eq_refl).
Defined.

(** [Put] does not check its handles: the message it sends decodes into
    exactly one rights message that carries, in order, the descriptor of
    every handle cut to 32 bits; a nil handle travels as descriptor
    -1. *)
Theorem Put_sends_every_handle_as_int32 P K via files w d :
  platform_ok P = true ->
  files <> [] -> 4 * len files + 64 < 2 ^ 31 ->
  k_dup K (log w) via = Ok d ->
  exists rights m,
    log (snd (Put P K via files w))
    = log w ++ [EvFile via; EvSendmsg d rights; EvClose d]
    /\ Syscall.ParseSocketControlMessage P rights = Done ([m], None)
    /\ Syscall.ParseUnixRights P m
       = Done (map (fun f => int32 (Fd f)) files, None)
    /\ forall i, nth_error files i = Some None ->
                 nth_error (map (fun f => int32 (Fd f)) files) i = Some (-1).
Proof.
  intros HP Hf Hs Hd. apply platform_ok_facts in HP.
  assert (Hsf : 4 * len (map Fd files) + 64 < 2 ^ 31)
    by (rewrite len_map; lia).
  exists (Syscall.UnixRights P (map Fd files)),
         (rights_message P (map Fd files)).
  split; [apply (Put_log P K via files w d Hf Hd)|].
  split; [apply (ParseSocketControlMessage_UnixRights P HP _ Hsf)|].
  split.
  - rewrite (ParseUnixRights_rights_message P), map_map. reflexivity.
  - intros i Hi. rewrite nth_error_map, Hi. reflexivity.
Qed.

Lemma Put_sends_every_handle_as_int32_witness :
  let K := scripted (Ok 7) (Err EINVAL) None in
  let files := [Some {| file_fd := 4; file_name := "a" |}; None] in
  (platform_ok linux_s390x = true /\ files <> []
   /\ 4 * len files + 64 < 2 ^ 31)
  /\ exists rights m,
      log (snd (Put linux_s390x K conn0 files world0))
      = log world0 ++ [EvFile conn0; EvSendmsg 7 rights; EvClose 7]
      /\ Syscall.ParseSocketControlMessage linux_s390x rights
         = Done ([m], None)
      /\ Syscall.ParseUnixRights linux_s390x m = Done ([4; -1], None)
      /\ forall i, nth_error files i = Some None ->
                   nth_error [4; -1] i = Some (-1).
Proof.
  intros K files.
  assert (H1 : platform_ok linux_s390x = true) by reflexivity.
  assert (H2 : files <> []) by discriminate.
  assert (H3 : 4 * len files + 64 < 2 ^ 31) by (vm_compute; reflexivity).
  split; [auto|].
  exact (Put_sends_every_handle_as_int32 linux_s390x K conn0 files world0 7
           H1 H2 H3 eq_refl).
Defined.

(* ------------------------------------------------------------------ *)
(** *** Several messages *)

Lemma map_Fd_handles_of filenames fdss :
  Forall (Forall (fun fd => 0 <= fd)) fdss ->
  map Fd (handles_of filenames fdss) = concat fdss.
Proof.
  induction 1 as [|fds rest Hfds _ IH]; [reflexivity|].
  change (handles_of filenames (fds :: rest))
    with (handles_from filenames fds 0 ++ handles_of filenames rest).
  simpl concat. rewrite map_app, IH.
  now rewrite (map_Fd_handles_from filenames fds Hfds).
Qed.

(** When the received buffer decodes into several rights messages of
    valid (non-negative) descriptors, [Get] returns one handle per
    descriptor, the messages in the order they lie in the buffer and
    the descriptors of each message in their order. *)
Theorem Get_keeps_order_across_messages
    P K via num filenames w d buf msgs fdss :
  received P K via num w = Some (d, buf) ->
  Syscall.ParseSocketControlMessage P buf = Done (msgs, None) ->
  extracts P msgs fdss ->
  Forall (Forall (fun fd => 0 <= fd)) fdss ->
  exists res,
    fst (Get P K via num filenames w) = Done (res, None)
    /\ map Fd res = concat fdss.
Proof.
  intros Hr Hp He Hpos. exists (handles_of filenames fdss). split.
  - exact (Get_names_by_message P K via num filenames w d buf msgs fdss
             Hr Hp He).
  - now apply map_Fd_handles_of.
Qed.

Lemma Get_keeps_order_across_messages_witness :
  let buf := Syscall.UnixRights darwin_amd64 [5; 9]
             ++ Syscall.UnixRights darwin_amd64 [6] in
  let K := scripted (Ok 7) (Ok buf) None in
  let m1 := {| Syscall.Header :=
                 {| Syscall.Len := 20; Syscall.Level := 65535;
                    Syscall.Type_ := 1 |};
               Syscall.Data := le_split 4 5 ++ le_split 4 9 |} in
  let m2 := {| Syscall.Header :=
                 {| Syscall.Len := 16; Syscall.Level := 65535;
                    Syscall.Type_ := 1 |};
               Syscall.Data := le_split 4 6 |} in
  (received darwin_amd64 K conn0 6 world0 = Some (7, buf)
   /\ Syscall.ParseSocketControlMessage darwin_amd64 buf
      = Done ([m1; m2], None)
   /\ extracts darwin_amd64 [m1; m2] [[5; 9]; [6]]
   /\ Forall (Forall (fun fd => 0 <= fd)) [[5; 9]; [6]])
  /\ exists res,
      fst (Get darwin_amd64 K conn0 6 [] world0) = Done (res, None)
      /\ map Fd res = [5; 9; 6].
Proof.
  intros buf K m1 m2.
  assert (H1 : received darwin_amd64 K conn0 6 world0 = Some (7, buf))
    by (vm_compute; reflexivity).
  assert (H2 : Syscall.ParseSocketControlMessage darwin_amd64 buf
               = Done ([m1; m2], None)) by (vm_compute; reflexivity).
  assert (H3 : extracts darwin_amd64 [m1; m2] [[5; 9]; [6]])
    by (repeat constructor).
  assert (H4 : Forall (Forall (fun fd => 0 <= fd)) [[5; 9]; [6]])
    by (repeat constructor; vm_compute; discriminate).
  split; [auto|].
  exact (Get_keeps_order_across_messages darwin_amd64 K conn0 6 [] world0 7
           buf [m1; m2] [[5; 9]; [6]] H1 H2 H3 H4).
Defined.

(* ------------------------------------------------------------------ *)
(** *** The receive buffer against the sizing rule *)




